(** * go-quai p2p request/response core: a shallow embedding

    Sources embedded here:
    - [p2p/protocol/interface.go]: [QuaiProtocolHandler] and the per-type
      request handlers;
    - the node's API file: [RequestByNumber], [RequestByHash], [GetBlock],
      [GetHeader], [GetBlockHashByNumber], [BanPeer], [handleBroadcast];
    - the node's peer requester: [requestFromPeer], [locationToCid].

    Go interface values are modelled by their dynamic type and value, type
    switches by pattern matching, failed type assertions and nil
    dereferences by a [Panic] outcome, and the node, the request-ID manager
    and the observable calls into collaborators by an explicit state. *)

From Stdlib Require Import ZArith List Ascii String Lia.
From stdpp Require Import base option list gmap sets strings.

Import ListNotations.
Local Open Scope Z_scope.

(** ** Bytes *)

(** A byte string is a list of integers in [0, 256). *)
Definition bytes := list Z.

Definition byte_of_ascii (a : ascii) : Z := Z.of_N (N_of_ascii a).

(** Go's [[]byte(s)]. *)
Definition bytes_of_string (s : string) : bytes :=
  map byte_of_ascii (list_ascii_of_string s).

(** ** Unsigned varints (encoding/binary, go-varint)

    [PutUvarint]: seven bits per byte, least significant group first, the
    high bit set on every byte but the last. The argument is a [uint64], so
    the loop runs at most nine times before the final byte. *)
Module Varint.

Fixpoint put_loop (fuel : nat) (x : Z) : bytes :=
  match fuel with
  | O => [Z.land x 255]
  | S fuel' =>
      if 128 <=? x
      then Z.lor (Z.land x 255) 128 :: put_loop fuel' (Z.shiftr x 7)
      else [Z.land x 255]
  end.

Definition MaxVarintLen64 : nat := 10.

Definition PutUvarint (x : Z) : bytes := put_loop (MaxVarintLen64 - 1) x.

(** [Uvarint]: reads one varint off the front of a buffer and returns the
    value with the rest of the buffer; [None] on a truncated or overlong
    encoding. *)
Fixpoint get_loop (fuel : nat) (buf : bytes) (x s : Z) : option (Z * bytes) :=
  match buf with
  | [] => None
  | b :: rest =>
      if b <? 128
      then
        match fuel with
        | O => if 1 <? b then None else Some (Z.lor x (Z.shiftl b s), rest)
        | S _ => Some (Z.lor x (Z.shiftl b s), rest)
        end
      else
        match fuel with
        | O => None
        | S fuel' => get_loop fuel' rest (Z.lor x (Z.shiftl (Z.land b 127) s)) (s + 7)
        end
  end.

Definition Uvarint (buf : bytes) : option (Z * bytes) :=
  get_loop (MaxVarintLen64 - 1) buf 0 0.

End Varint.

(** ** Multihash and CID (go-multihash, go-cid) *)
Module Multihash.

Definition SHA2_256 : Z := 0x12.

(** [multihash.Encode(buf, code)]: wraps [buf] as the digest of a multihash
    with the given function code. The length field is the length of [buf];
    nothing is hashed. The error result is nil for a known code and the
    caller discards it. *)
Definition Encode (buf : bytes) (code : Z) : bytes :=
  Varint.PutUvarint code ++ Varint.PutUvarint (Z.of_nat (length buf)) ++ buf.

(** [multihash.Decode]'s reading of a buffer: function code, declared
    length and digest, with whatever follows. *)
Definition Decode (buf : bytes) : option (Z * Z * bytes) :=
  match Varint.Uvarint buf with
  | None => None
  | Some (code, r1) =>
      match Varint.Uvarint r1 with
      | None => None
      | Some (len, digest) =>
          if Z.of_nat (length digest) =? len then Some (code, len, digest) else None
      end
  end.

End Multihash.

Module Cid.

Definition Raw : Z := 0x55.

(** [cid.NewCidV1(codecType, mhash)]: version 1, the codec, then the
    multihash bytes. *)
Definition NewCidV1 (codecType : Z) (mhash : bytes) : bytes :=
  Varint.PutUvarint 1 ++ Varint.PutUvarint codecType ++ mhash.

(** Reading a binary CID back: version, codec and multihash. *)
Definition Parse (c : bytes) : option (Z * Z * bytes) :=
  match Varint.Uvarint c with
  | None => None
  | Some (version, r1) =>
      match Varint.Uvarint r1 with
      | None => None
      | Some (codec, mhash) => Some (version, codec, mhash)
      end
  end.

End Cid.

(** ** SHA-256 (FIPS 180-4), used to state what a SHA2-256 digest is *)
Module SHA256.

Definition w32 (x : Z) : Z := x mod 2 ^ 32.
Definition add32 (x y : Z) : Z := w32 (x + y).
Definition not32 (x : Z) : Z := Z.lxor x (2 ^ 32 - 1).
Definition rotr (n x : Z) : Z := Z.lor (Z.shiftr x n) (w32 (Z.shiftl x (32 - n))).

Definition Ch (x y z : Z) : Z := Z.lxor (Z.land x y) (Z.land (not32 x) z).
Definition Maj (x y z : Z) : Z :=
  Z.lxor (Z.lxor (Z.land x y) (Z.land x z)) (Z.land y z).
Definition Sigma0 (x : Z) : Z := Z.lxor (Z.lxor (rotr 2 x) (rotr 13 x)) (rotr 22 x).
Definition Sigma1 (x : Z) : Z := Z.lxor (Z.lxor (rotr 6 x) (rotr 11 x)) (rotr 25 x).
Definition sigma0 (x : Z) : Z := Z.lxor (Z.lxor (rotr 7 x) (rotr 18 x)) (Z.shiftr x 3).
Definition sigma1 (x : Z) : Z := Z.lxor (Z.lxor (rotr 17 x) (rotr 19 x)) (Z.shiftr x 10).

(** The round constants and the initial hash value are, by their
    definition in the standard, the first 32 bits of the fractional parts
    of the cube roots of the first 64 primes and of the square roots of the
    first 8. *)
Definition primes : list Z :=
  [2; 3; 5; 7; 11; 13; 17; 19; 23; 29; 31; 37; 41; 43; 47; 53;
   59; 61; 67; 71; 73; 79; 83; 89; 97; 101; 103; 107; 109; 113; 127; 131;
   137; 139; 149; 151; 157; 163; 167; 173; 179; 181; 191; 193; 197; 199; 211; 223;
   227; 229; 233; 239; 241; 251; 257; 263; 269; 271; 277; 281; 283; 293; 307; 311].

(** Integer cube root, one bit at a time from bit [bits - 1] down. *)
Fixpoint cbrt_bits (bits : nat) (n r : Z) : Z :=
  match bits with
  | O => r
  | S b =>
      let r' := r + 2 ^ Z.of_nat b in
      cbrt_bits b n (if r' * r' * r' <=? n then r' else r)
  end.

Definition icbrt (n : Z) : Z := cbrt_bits 36 n 0.

Definition K : list Z := map (fun q => w32 (icbrt (q * 2 ^ 96))) primes.

Definition H0 : list Z := map (fun q => w32 (Z.sqrt (q * 2 ^ 64))) (firstn 8 primes).

(** Big-endian bytes of a [n]-byte quantity. *)
Fixpoint be_bytes (n : nat) (x : Z) : bytes :=
  match n with
  | O => []
  | S n' => Z.land (Z.shiftr x (8 * Z.of_nat n')) 255 :: be_bytes n' x
  end.

Definition be_word (bs : bytes) : Z := fold_left (fun acc b => acc * 256 + b) bs 0.

(** Padding: a one bit, zeros up to 56 mod 64, the bit length on 8 bytes. *)
Definition pad (msg : bytes) : bytes :=
  let n := Z.of_nat (length msg) in
  let zeros := (55 - n) mod 64 in
  msg ++ [0x80] ++ repeat 0 (Z.to_nat zeros) ++ be_bytes 8 (8 * n).

Fixpoint words (fuel : nat) (bs : bytes) : list Z :=
  match fuel, bs with
  | S fuel', a :: b :: c :: d :: rest => be_word [a; b; c; d] :: words fuel' rest
  | _, _ => []
  end.

(** Message schedule: the 16 words of the block extended to 64. *)
Fixpoint schedule (n : nat) (w : list Z) : list Z :=
  match n with
  | O => w
  | S n' =>
      let t := length w in
      let at_ (k : nat) := nth (t - k) w 0 in
      schedule n' (w ++ [add32 (add32 (sigma1 (at_ 2%nat)) (at_ 7%nat))
                               (add32 (sigma0 (at_ 15%nat)) (at_ 16%nat))])
  end.

Definition round (st : list Z) (kw : Z * Z) : list Z :=
  match st with
  | [a; b; c; d; e; f; g; h] =>
      let t1 := add32 (add32 (add32 h (Sigma1 e)) (add32 (Ch e f g) (fst kw))) (snd kw) in
      let t2 := add32 (Sigma0 a) (Maj a b c) in
      [add32 t1 t2; a; b; c; add32 d t1; e; f; g]
  | _ => st
  end.

Definition compress (h : list Z) (block : list Z) : list Z :=
  let w := schedule 48 block in
  let st := fold_left round (combine K w) h in
  map (fun p => add32 (fst p) (snd p)) (combine h st).

Fixpoint blocks (fuel : nat) (ws : list Z) (h : list Z) : list Z :=
  match fuel with
  | O => h
  | S fuel' =>
      match ws with
      | [] => h
      | _ => blocks fuel' (skipn 16 ws) (compress h (firstn 16 ws))
      end
  end.

Definition sum256 (msg : bytes) : bytes :=
  let p := pad msg in
  let ws := words (length p) p in
  concat (map (be_bytes 4) (blocks (length ws) ws H0)).

End SHA256.

(** ** Go values

    An [interface{}] value is its dynamic type together with the value of
    that type. Only the dynamic types that the sources switch on or assert
    are distinguished; a pointer is [None] when nil. *)

(** [common.Hash]: 32 bytes, read as a number. *)
Definition Hash := Z.
Definition PeerID := string.

(** Modelled from the spec: [common.Location] is declared outside the
    sources; it is an opaque slice identifier with a canonical [Name()]. *)
Record Location := { Name : string }.

(** Modelled from the spec: [types.Block], [types.Header] and
    [types.Transaction] are declared outside the sources; they are opaque
    payloads that carry their own [Hash()]. *)
Record Block := { block_hash : Hash; block_body : bytes }.
Record Header := { header_hash : Hash; header_body : bytes }.
Record Transaction := { tx_hash : Hash; tx_body : bytes }.

Inductive value :=
| Nil                                   (* the nil interface *)
| BlockPtr (b : option Block)           (* *types.Block *)
| HeaderPtr (h : option Header)         (* *types.Header *)
| TransactionPtr (t : option Transaction) (* *types.Transaction *)
| HashVal (h : Hash)                    (* common.Hash *)
| HashPtr (h : option Hash)             (* *common.Hash *)
| BigIntPtr (n : option Z)              (* *big.Int *)
| BigIntVal (n : Z)                     (* big.Int *)
| BlockVal (b : Block)                  (* types.Block *)
| Other (dyntype : string).             (* any other dynamic type *)

(** Go's [error]; [EOF] is [io.EOF]. *)
Inductive error := EOF | Err (msg : string).

(** The closed set of type tags of the spec, as carried by the dynamic
    type of the [datatype] argument. *)
Inductive TypeTag := TagBlock | TagHeader | TagTransaction | TagBlockHash.

Definition kindOf (v : value) : option TypeTag :=
  match v with
  | BlockPtr _ => Some TagBlock
  | HeaderPtr _ => Some TagHeader
  | TransactionPtr _ => Some TagTransaction
  | HashPtr _ => Some TagBlockHash
  | _ => None
  end.

Definition TypeTag_eqb (a b : TypeTag) : bool :=
  match a, b with
  | TagBlock, TagBlock | TagHeader, TagHeader
  | TagTransaction, TagTransaction | TagBlockHash, TagBlockHash => true
  | _, _ => false
  end.

(** The hash a payload reports, when it is a non-nil block, header or
    transaction. *)
Definition payloadHash (v : value) : option Hash :=
  match v with
  | BlockPtr (Some b) => Some (block_hash b)
  | HeaderPtr (Some h) => Some (header_hash h)
  | TransactionPtr (Some t) => Some (tx_hash t)
  | _ => None
  end.

(** ** Collaborators *)

(** [quai.ConsensusAPI]: the lookups return nil when the entity is absent.
    [OnNewBroadcast] is recorded as an event. *)
Record ConsensusAPI := {
  LookupBlock : Hash -> Location -> option Block;
  LookupHeader : Hash -> Location -> option Header;
  LookupBlockHashByNumber : Z -> Location -> option Hash
}.

(** The wire codec of package [pb], a boundary of the core. *)
Record Codec := {
  EncodeQuaiRequest : Z -> Location -> value -> value -> bytes + error;
  DecodeQuaiRequest : bytes -> (Z * value * Location * value) + error;
  EncodeQuaiResponse : Z -> value -> bytes + error;
  DecodeQuaiResponse : bytes -> (Z * value) + error
}.

(** A [network.Stream] as the core uses it: the negotiated protocol, the
    remote peer, whether a write succeeds, what the remote answers to a
    request written on it (outbound use), and the successive results of
    reading it (inbound use; a read past the end is [io.EOF]). *)
Record Stream := {
  Protocol : string;
  RemotePeer : PeerID;
  on_write : bytes -> option error;
  reply : bytes -> bytes + error;
  incoming : list (bytes + error)
}.

(** What the node observably does to its collaborators. *)
Inductive event :=
| EvGenerate (id : Z)
| EvAdd (id : Z)
| EvRemove (id : Z)
| EvStreamWrite (peer : PeerID) (data : bytes)
| EvStreamClose (peer : PeerID)
| EvBanPeer (peer : PeerID)
| EvClosePeer (peer : PeerID)
| EvOnNewBroadcast (source : PeerID) (data : value) (location : Location).

(** ** The node and the process-wide request-ID manager *)
Record Node := {
  cache : gmap Z value;
  consensus : option ConsensusAPI;
  nextRequestID : Z;
  activeRequests : gset Z;
  trace : list event
}.

Definition set_cache (c : gmap Z value) (p : Node) : Node :=
  {| cache := c; consensus := consensus p; nextRequestID := nextRequestID p;
     activeRequests := activeRequests p; trace := trace p |}.

Definition set_consensus (be : option ConsensusAPI) (p : Node) : Node :=
  {| cache := cache p; consensus := be; nextRequestID := nextRequestID p;
     activeRequests := activeRequests p; trace := trace p |}.

Definition set_nextRequestID (n : Z) (p : Node) : Node :=
  {| cache := cache p; consensus := consensus p; nextRequestID := n;
     activeRequests := activeRequests p; trace := trace p |}.

Definition set_activeRequests (a : gset Z) (p : Node) : Node :=
  {| cache := cache p; consensus := consensus p; nextRequestID := nextRequestID p;
     activeRequests := a; trace := trace p |}.

Definition emit (e : event) (p : Node) : Node :=
  {| cache := cache p; consensus := consensus p; nextRequestID := nextRequestID p;
     activeRequests := activeRequests p; trace := trace p ++ [e] |}.

(** ** Computations: state passing with panics *)
Inductive outcome (A : Type) :=
| Done (a : A)
| Panic (msg : string).
Arguments Done {A} a.
Arguments Panic {A} msg.

Definition M (A : Type) : Type := Node -> outcome A * Node.

Definition ret {A} (a : A) : M A := fun p => (Done a, p).

Definition bind {A B} (m : M A) (k : A -> M B) : M B :=
  fun p =>
    match m p with
    | (Done a, p') => k a p'
    | (Panic msg, p') => (Panic msg, p')
    end.

Definition panic {A} (msg : string) : M A := fun p => (Panic msg, p).

(** [defer d] before a body: [d] runs when the body returns or panics. *)
Definition defer {A} (d : Node -> Node) (body : M A) : M A :=
  fun p => let '(r, p') := body p in (r, d p').

Definition get {A} (f : Node -> A) : M A := fun p => (Done (f p), p).
Definition modify (f : Node -> Node) : M unit := fun p => (Done tt, f p).

Notation "x <- m ;; k" := (bind m (fun x => k))
  (at level 100, m at next level, right associativity).
Notation "m ;;; k" := (bind m (fun _ => k))
  (at level 100, right associativity).

(** Logging has no effect on the node; arguments whose evaluation can
    panic are evaluated by the caller before the call. *)
Definition log (msg : string) : M unit := ret tt.

Definition nil_dereference : string := "invalid memory address or nil pointer dereference".
Definition bad_assertion : string := "interface conversion".

(** Method calls through a pointer receiver. [Hash()] reads the receiver,
    so a nil receiver is a nil dereference. *)
Definition Block_Hash (b : option Block) : M Hash :=
  match b with Some b => ret (block_hash b) | None => panic nil_dereference end.
Definition Header_Hash (h : option Header) : M Hash :=
  match h with Some h => ret (header_hash h) | None => panic nil_dereference end.
Definition Transaction_Hash (t : option Transaction) : M Hash :=
  match t with Some t => ret (tx_hash t) | None => panic nil_dereference end.

(** Type assertions [x.(T)] in their panicking form. *)
Definition assert_Hash (x : value) : M Hash :=
  match x with HashVal h => ret h | _ => panic bad_assertion end.
Definition assert_BigInt (x : value) : M Z :=
  match x with BigIntVal n => ret n | _ => panic bad_assertion end.
Definition assert_BlockPtr (x : value) : M (option Block) :=
  match x with BlockPtr b => ret b | _ => panic bad_assertion end.

(** Request-ID manager. Modelled from the spec: the manager is declared
    outside the sources; [Generate] is a 32-bit counter, [Add] inserts into
    the pending set and [Remove] deletes from it. *)
Definition GenerateRequestID : M Z :=
  fun p =>
    let id := nextRequestID p in
    (Done id, emit (EvGenerate id) (set_nextRequestID ((id + 1) mod 2 ^ 32) p)).

Definition AddRequestID (id : Z) : M unit :=
  modify (fun p => emit (EvAdd id) (set_activeRequests ({[id]} ∪ activeRequests p) p)).

Definition RemoveRequestID (id : Z) : M unit :=
  modify (fun p => emit (EvRemove id) (set_activeRequests (activeRequests p ∖ {[id]}) p)).

(** Response cache. Modelled from the spec: [cacheGet] and [cacheAdd] are
    declared outside the sources; [Get] returns the payload iff an entry
    exists and its tag equals the requested tag, [Put] inserts or
    overwrites. *)
Definition cacheGet (hash : Hash) (datatype : value) : M (value * bool) :=
  get (fun p =>
    match cache p !! hash with
    | Some v =>
        match kindOf v, kindOf datatype with
        | Some t, Some t' => if TypeTag_eqb t t' then (v, true) else (Nil, false)
        | _, _ => (Nil, false)
        end
    | None => (Nil, false)
    end).

Definition cacheAdd (hash : Hash) (data : value) : M unit :=
  modify (fun p => set_cache (<[hash := data]> (cache p)) p).

(** [common.WriteMessageToStream] and [stream.Close]. *)
Definition WriteMessageToStream (stream : Stream) (data : bytes) : M (option error) :=
  match on_write stream data with
  | Some err => ret (Some err)
  | None => modify (emit (EvStreamWrite (RemotePeer stream) data)) ;;; ret None
  end.

Definition stream_Close (stream : Stream) : Node -> Node :=
  emit (EvStreamClose (RemotePeer stream)).

(** Modelled from the spec: the constant is declared outside the sources. *)
Definition ProtocolVersion : string := "/quai/1.0.0".

(** ** The core, over its boundary

    The wire codec, the host's [NewStream], the pubsub engine's
    [PeersForTopic] and the DHT's [FindProvidersAsync] (per retry round)
    are parameters. *)
Section Core.

Variable pb : Codec.
Variable NewStream : PeerID -> Stream + error.
Variable PeersForTopic : Location -> value -> list PeerID * option error.
Variable FindProvidersAsync : nat -> bytes -> nat -> list PeerID.

(** *** Node facade *)

(** A method call on the [consensus] interface field; nil when no backend
    was set. *)
Definition backend : M ConsensusAPI :=
  fun p =>
    match consensus p with
    | Some be => (Done be, p)
    | None => (Panic nil_dereference, p)
    end.

Definition SetConsensusBackend (be : ConsensusAPI) : M unit :=
  modify (set_consensus (Some be)).

Definition emptyBlock : Block := {| block_hash := 0; block_body := [] |}.

Definition GetBlock (hash : Hash) (location : Location) : M (option Block) :=
  r <- cacheGet hash (BlockPtr (Some emptyBlock)) ;;
  if snd r
  then assert_BlockPtr (fst r)
  else be <- backend ;; ret (LookupBlock be hash location).

Definition GetBlockHashByNumber (number : Z) (location : Location) : M (option Hash) :=
  be <- backend ;; ret (LookupBlockHashByNumber be number location).

Definition GetHeader (hash : Hash) (location : Location) : M (option Header) :=
  panic "TODO: implement".

Definition BanPeer (peer : PeerID) : M unit :=
  log "Banning peer for misbehaving" ;;;
  modify (emit (EvBanPeer peer)) ;;;
  modify (emit (EvClosePeer peer)).

Definition handleBroadcast (sourcePeer : PeerID) (data : value) (nodeLocation : Location)
  : M unit :=
  match data with
  | BlockVal v =>
      cacheAdd (block_hash v) (BlockPtr (Some v)) ;;;
      be <- get consensus ;;
      match be with
      | Some _ => modify (emit (EvOnNewBroadcast sourcePeer data nodeLocation))
      | None => ret tt
      end
  | _ =>
      log "received unsupported block broadcast" ;;;
      ret tt
  end.

(** *** Content identifier *)
Definition locationToCid (location : Location) : bytes :=
  let sliceBytes := bytes_of_string (Name location) in
  let mhash := Multihash.Encode sliceBytes Multihash.SHA2_256 in
  Cid.NewCidV1 Cid.Raw mhash.

(** *** Peer requester *)

(** The type-and-hash check that ends [requestFromPeer]: [Some] payload
    when a case of the switch returns it, [None] when control leaves the
    switch. *)
Definition checkResponse (data datatype recvdType : value) : M (option value) :=
  match datatype with
  | BlockPtr _ =>
      match recvdType with
      | BlockPtr block =>
          h <- Block_Hash block ;;
          want <- assert_Hash data ;;
          if h =? want then ret (Some (BlockPtr block)) else ret None
      | _ => ret None
      end
  | HeaderPtr _ =>
      match recvdType with
      | HeaderPtr header =>
          h <- Header_Hash header ;;
          want <- assert_Hash data ;;
          if h =? want then ret (Some (HeaderPtr header)) else ret None
      | _ => ret None
      end
  | TransactionPtr _ =>
      match recvdType with
      | TransactionPtr tx =>
          h <- Transaction_Hash tx ;;
          want <- assert_Hash data ;;
          if h =? want then ret (Some (TransactionPtr tx)) else ret None
      | _ => ret None
      end
  | HashPtr _ =>
      match recvdType with
      | HashPtr hash => ret (Some (HashPtr hash))
      | _ => ret None
      end
  | _ =>
      log "peer returned unexpected type" ;;;
      ret None
  end.

Definition invalid_response : error := Err "invalid response".

Definition validateOrBan (peerID : PeerID) (data datatype recvdType : value)
  : M (value * option error) :=
  checked <- checkResponse data datatype recvdType ;;
  match checked with
  | Some payload => ret (payload, None)
  | None =>
      BanPeer peerID ;;;
      ret (Nil, Some invalid_response)
  end.

Definition requestFromPeer (peerID : PeerID) (location : Location) (data datatype : value)
  : M (value * option error) :=
  match NewStream peerID with
  | inr err => ret (Nil, Some err)
  | inl stream =>
      defer (stream_Close stream) (
        id <- GenerateRequestID ;;
        match EncodeQuaiRequest pb id location data datatype with
        | inr err => ret (Nil, Some err)
        | inl requestBytes =>
            werr <- WriteMessageToStream stream requestBytes ;;
            match werr with
            | Some err => ret (Nil, Some err)
            | None =>
                AddRequestID id ;;;
                match reply stream requestBytes with
                | inr err => ret (Nil, Some err)
                | inl responseBytes =>
                    match DecodeQuaiResponse pb responseBytes with
                    | inr err => ret (Nil, Some err)
                    | inl (recvdID, recvdType) =>
                        if negb (recvdID =? id)
                        then
                          log "peer returned unexpected request ID" ;;;
                          panic "TODO: implement"
                        else
                          RemoveRequestID id ;;;
                          validateOrBan peerID data datatype recvdType
                    end
                end
            end
        end)
  end.

(** *** Request dispatcher

    Each goroutine is run to completion where it is spawned; the payloads
    sent on the result channel are collected in order. An unrecovered panic
    in a goroutine ends the process, so it ends the computation. The sleeps
    between DHT rounds are not modelled. *)
Fixpoint for_each {A B} (l : list A) (f : A -> M (list B)) : M (list B) :=
  match l with
  | [] => ret []
  | a :: l' => r <- f a ;; rs <- for_each l' f ;; ret (r ++ rs)
  end.

Definition maxDHTQueryRetries : nat := 3.
Definition peersPerDHTQuery : nat := 10.

Definition RequestByNumber (location : Location) (number : option Z) (datatype : value)
  : M (list value) :=
  let '(peers, err) := PeersForTopic location datatype in
  match err with
  | Some _ =>
      log "Error requesting data" ;;;
      ret []
  | None =>
      fromTopic <- for_each peers (fun peerID =>
        r <- requestFromPeer peerID location (BigIntPtr number) datatype ;;
        match snd r with
        | None => log "Received from peer" ;;; ret [fst r]
        | Some _ => ret []
        end) ;;
      let shardCid := locationToCid location in
      fromDHT <- for_each (seq 0 maxDHTQueryRetries) (fun retries =>
        for_each (FindProvidersAsync retries shardCid peersPerDHTQuery) (fun peer =>
          r <- requestFromPeer peer location (BigIntPtr number) datatype ;;
          match snd r with
          | None => log "Received from peer" ;;; ret [fst r]
          | Some _ => ret []
          end)) ;;
      ret (fromTopic ++ fromDHT)
  end.

Definition RequestByHash (location : Location) (hash : Hash) (datatype : value)
  : M (list value) :=
  hit <- cacheGet hash datatype ;;
  if snd hit
  then
    log "data found in cache" ;;;
    block <- assert_BlockPtr (fst hit) ;;
    ret [BlockPtr block]
  else
    let '(peers, err) := PeersForTopic location datatype in
    match err with
    | Some _ =>
        log "Error requesting data" ;;;
        ret []
    | None =>
        fromTopic <- for_each peers (fun peerID =>
          r <- requestFromPeer peerID location (HashVal hash) datatype ;;
          match snd r with
          | None => cacheAdd hash (fst r) ;;; ret [fst r]
          | Some _ => ret []
          end) ;;
        let shardCid := locationToCid location in
        fromDHT <- for_each (seq 0 maxDHTQueryRetries) (fun retries =>
          for_each (FindProvidersAsync retries shardCid peersPerDHTQuery) (fun peer =>
            r <- requestFromPeer peer location (HashVal hash) datatype ;;
            match snd r with
            | None => cacheAdd hash (fst r) ;;; ret [fst r]
            | Some _ => ret []
            end)) ;;
        ret (fromTopic ++ fromDHT)
    end.

(** [Request]: [log.Fatalf] on any other selector ends the process. *)
Definition Request (location : Location) (data datatype : value) : M (list value) :=
  match data with
  | HashVal hash => RequestByHash location hash datatype
  | BigIntPtr number => RequestByNumber location number datatype
  | _ => panic "unsupported request input data field type"
  end.

(** *** Stream protocol handler *)

Definition handleBlockRequest (id : Z) (loc : Location) (hash : Hash) (stream : Stream)
  : M (option error) :=
  block <- GetBlock hash loc ;;
  match block with
  | None => log "block not found"
  | Some _ => ret tt
  end ;;;
  found <- Block_Hash block ;;
  log "block found" ;;;
  match EncodeQuaiResponse pb id (BlockPtr block) with
  | inr err => ret (Some err)
  | inl data =>
      werr <- WriteMessageToStream stream data ;;
      match werr with
      | Some err => ret (Some err)
      | None =>
          sent <- Block_Hash block ;;
          log "Sent block to peer" ;;;
          ret None
      end
  end.

Definition handleHeaderRequest (id : Z) (loc : Location) (hash : Hash) (stream : Stream)
  : M (option error) :=
  header <- GetHeader hash loc ;;
  match header with
  | None =>
      log "header not found" ;;;
      ret None
  | Some _ =>
      found <- Header_Hash header ;;
      log "header found" ;;;
      match EncodeQuaiResponse pb id (HeaderPtr header) with
      | inr err => ret (Some err)
      | inl data =>
          werr <- WriteMessageToStream stream data ;;
          match werr with
          | Some err => ret (Some err)
          | None =>
              sent <- Header_Hash header ;;
              log "Sent header to peer" ;;;
              ret None
          end
      end
  end.

Definition handleTransactionRequest (id : Z) (loc : Location) (hash : Hash) (stream : Stream)
  : M (option error) :=
  panic "TODO: implement".

Definition handleBlockNumberRequest (id : Z) (loc : Location) (number : Z) (stream : Stream)
  : M (option error) :=
  blockHash <- GetBlockHashByNumber number loc ;;
  match blockHash with
  | None => log "block not found"
  | Some _ => ret tt
  end ;;;
  log "block found" ;;;
  match EncodeQuaiResponse pb id (HashPtr blockHash) with
  | inr err => ret (Some err)
  | inl data =>
      werr <- WriteMessageToStream stream data ;;
      match werr with
      | Some err => ret (Some err)
      | None =>
          log "Sent block hash to peer" ;;;
          ret None
      end
  end.

(** The read loop, over the successive results of
    [common.ReadMessageFromStream]. Every branch of the dispatch goes on to
    the next iteration, whether the handler returned an error or not. *)
Fixpoint read_loop (stream : Stream) (reads : list (bytes + error)) : M unit :=
  match reads with
  | [] => log "stream closed by peer"
  | inr EOF :: _ => log "stream closed by peer"
  | inr (Err _) :: rest =>
      log "error reading message from stream" ;;;
      read_loop stream rest
  | inl data :: rest =>
      match DecodeQuaiRequest pb data with
      | inr err =>
          log "error decoding quai request" ;;;
          read_loop stream rest
      | inl (id, decodedType, loc, query) =>
          match query with
          | HashVal _ => log "Received request for hash"
          | BigIntPtr _ => log "Received request for number"
          | _ => log "unsupported request input data field type"
          end ;;;
          match decodedType with
          | BlockPtr _ =>
              hash <- assert_Hash query ;;
              err <- handleBlockRequest id loc hash stream ;;
              match err with
              | Some _ => log "error handling block request"
              | None => ret tt
              end ;;;
              read_loop stream rest
          | HeaderPtr _ =>
              hash <- assert_Hash query ;;
              err <- handleHeaderRequest id loc hash stream ;;
              match err with
              | Some _ => log "error handling header request"
              | None => ret tt
              end ;;;
              read_loop stream rest
          | TransactionPtr _ =>
              hash <- assert_Hash query ;;
              err <- handleTransactionRequest id loc hash stream ;;
              match err with
              | Some _ => log "error handling transaction request"
              | None => ret tt
              end ;;;
              read_loop stream rest
          | HashVal _ =>
              number <- assert_BigInt query ;;
              err <- handleBlockNumberRequest id loc number stream ;;
              match err with
              | Some _ => log "error handling block number request"
              | None => ret tt
              end ;;;
              read_loop stream rest
          | _ =>
              log "unsupported request data type" ;;;
              read_loop stream rest
          end
      end
  end.

Definition QuaiProtocolHandler (stream : Stream) : M unit :=
  defer (stream_Close stream) (
    log "Received a new stream" ;;;
    if negb (String.eqb (Protocol stream) ProtocolVersion)
    then log "Invalid protocol"
    else
      read_loop stream (incoming stream) ;;;
      log "Exiting Quai Protocol Handler").

End Core.

(** ** The spec's reading of the content identifier

    The spec derives the multihash from the SHA2-256 digest of the
    location's name; stated here beside [locationToCid] to compare them. *)
Definition locationToCid_spec (location : Location) : bytes :=
  let digest := SHA256.sum256 (bytes_of_string (Name location)) in
  Cid.NewCidV1 Cid.Raw (Multihash.Encode digest Multihash.SHA2_256).

(** ** Vocabulary of the statements *)

(** A by-hash type tag: Block, Header or Transaction. *)
Definition byHash (datatype : value) : bool :=
  match datatype with
  | BlockPtr _ | HeaderPtr _ | TransactionPtr _ => true
  | _ => false
  end.

(** A response that fails validation: the payload is not of the kind the
    tag asks for, or it is of that kind and reports another hash than the
    one requested. *)
Inductive rejected (data datatype recvdType : value) : Prop :=
| rejected_kind :
    kindOf recvdType <> kindOf datatype \/ kindOf datatype = None ->
    rejected data datatype recvdType
| rejected_hash (want got : Hash) :
    byHash datatype = true ->
    kindOf recvdType = kindOf datatype ->
    data = HashVal want ->
    payloadHash recvdType = Some got ->
    got <> want ->
    rejected data datatype recvdType.

(** The attempt gets as far as a decoded response: the stream opens, the
    request is encoded and written, and one response frame is read and
    decoded to [(recvdID, recvdType)]. *)
Definition answered (pb : Codec) (NewStream : PeerID -> Stream + error)
    (peerID : PeerID) (location : Location) (data datatype : value) (p : Node)
    (stream : Stream) (requestBytes : bytes) (recvdID : Z) (recvdType : value) : Prop :=
  NewStream peerID = inl stream /\
  EncodeQuaiRequest pb (nextRequestID p) location data datatype = inl requestBytes /\
  on_write stream requestBytes = None /\
  exists responseBytes,
    reply stream requestBytes = inl responseBytes /\
    DecodeQuaiResponse pb responseBytes = inl (recvdID, recvdType).

(** The node once the request is out and its ID registered. *)
Definition sent (stream : Stream) (requestBytes : bytes) (p : Node) : Node :=
  let id := nextRequestID p in
  {| cache := cache p; consensus := consensus p;
     nextRequestID := (id + 1) mod 2 ^ 32;
     activeRequests := {[id]} ∪ activeRequests p;
     trace := trace p ++ [EvGenerate id; EvStreamWrite (RemotePeer stream) requestBytes; EvAdd id] |}.

(** The number of occurrences of an event in a trace. *)
Definition event_eqb (a b : event) : bool :=
  match a, b with
  | EvGenerate x, EvGenerate y | EvAdd x, EvAdd y | EvRemove x, EvRemove y => x =? y
  | EvStreamClose x, EvStreamClose y | EvBanPeer x, EvBanPeer y
  | EvClosePeer x, EvClosePeer y => String.eqb x y
  | _, _ => false
  end.

Fixpoint occurrences (e : event) (t : list event) : nat :=
  match t with
  | [] => 0%nat
  | e' :: t' => ((if event_eqb e e' then 1 else 0) + occurrences e t')%nat
  end.

(** ** A small world to run the core in

    A codec with three-byte frames [[id; kind; number]] and a handful of
    remote peers, used to evaluate the definitions on concrete inputs. *)
Module Fixture.

Definition prime : Location := {| Name := "prime" |}.

Definition pb : Codec := {|
  EncodeQuaiRequest := fun id _ data datatype =>
    match datatype, data with
    | BlockPtr _, HashVal h => inl [id; 0; h]
    | HeaderPtr _, HashVal h => inl [id; 1; h]
    | TransactionPtr _, HashVal h => inl [id; 2; h]
    | HashPtr _, BigIntPtr (Some n) => inl [id; 3; n]
    | _, _ => inr (Err "unsupported request")
    end;
  DecodeQuaiRequest := fun data =>
    match data with
    | [id; 0; h] => inl (id, BlockPtr (Some emptyBlock), prime, HashVal h)
    | [id; 1; h] => inl (id, HeaderPtr (Some {| header_hash := 0; header_body := [] |}), prime, HashVal h)
    | [id; 2; h] => inl (id, TransactionPtr (Some {| tx_hash := 0; tx_body := [] |}), prime, HashVal h)
    | [id; 3; n] => inl (id, HashPtr (Some 0), prime, BigIntPtr (Some n))
    | _ => inr (Err "malformed request")
    end;
  EncodeQuaiResponse := fun id payload =>
    match payload with
    | BlockPtr (Some b) => inl [id; 0; block_hash b]
    | HeaderPtr (Some h) => inl [id; 1; header_hash h]
    | TransactionPtr (Some t) => inl [id; 2; tx_hash t]
    | HashPtr (Some h) => inl [id; 3; h]
    | _ => inr (Err "unsupported response")
    end;
  DecodeQuaiResponse := fun data =>
    match data with
    | [id; 0; h] => inl (id, BlockPtr (Some {| block_hash := h; block_body := [] |}))
    | [id; 1; h] => inl (id, HeaderPtr (Some {| header_hash := h; header_body := [] |}))
    | [id; 2; h] => inl (id, TransactionPtr (Some {| tx_hash := h; tx_body := [] |}))
    | [id; 3; h] => inl (id, HashPtr (Some h))
    | _ => inr (Err "malformed response")
    end
|}.

Definition stream_to (peer : PeerID) (answer : bytes -> bytes + error) : Stream :=
  {| Protocol := ProtocolVersion; RemotePeer := peer;
     on_write := fun _ => None; reply := answer; incoming := [] |}.

(** Remote peers: [honest] answers with the entity asked for; [liar] with
    an entity of another hash; [confused] with another request ID;
    [silent] lets the read fail; [mute] cannot be written to; nobody else
    can be dialled. *)
Definition NewStream (peer : PeerID) : Stream + error :=
  if String.eqb peer "honest" then
    inl (stream_to peer (fun req =>
      match req with [id; k; x] => inl [id; k; x] | _ => inr (Err "reset") end))
  else if String.eqb peer "liar" then
    inl (stream_to peer (fun req =>
      match req with [id; k; x] => inl [id; k; x + 1] | _ => inr (Err "reset") end))
  else if String.eqb peer "confused" then
    inl (stream_to peer (fun req =>
      match req with [id; k; x] => inl [id + 1; k; x] | _ => inr (Err "reset") end))
  else if String.eqb peer "silent" then
    inl (stream_to peer (fun _ => inr (Err "i/o deadline reached")))
  else if String.eqb peer "mute" then
    inl {| Protocol := ProtocolVersion; RemotePeer := peer;
           on_write := fun _ => Some (Err "stream reset");
           reply := fun _ => inr (Err "stream reset"); incoming := [] |}
  else inr (Err "failed to dial").

Definition PeersForTopic (peers : list PeerID) (_ : Location) (_ : value)
  : list PeerID * option error := (peers, None).

Definition FindProvidersAsync (providers : list PeerID) (retries : nat) (_ : bytes) (count : nat)
  : list PeerID :=
  match retries with
  | O => firstn count providers
  | _ => []
  end.

(** An inbound stream from [peer] carrying the given frames. *)
Definition inbound (peer : PeerID) (frames : list bytes) : Stream :=
  {| Protocol := ProtocolVersion; RemotePeer := peer;
     on_write := fun _ => None; reply := fun _ => inr EOF;
     incoming := map inl frames |}.

(** A backend that knows block [7] at number [42] and nothing else. *)
Definition chain : ConsensusAPI := {|
  LookupBlock := fun h _ => if h =? 7 then Some {| block_hash := 7; block_body := [1; 2] |} else None;
  LookupHeader := fun h _ => if h =? 7 then Some {| header_hash := 7; header_body := [1] |} else None;
  LookupBlockHashByNumber := fun n _ => if n =? 42 then Some 7 else None
|}.

Definition fresh : Node :=
  {| cache := ∅; consensus := None; nextRequestID := 0; activeRequests := ∅; trace := [] |}.

Definition serving : Node := set_consensus (Some chain) fresh.

End Fixture.

(** ** Lifecycle: [Start]

    The two configuration flags read through viper and the node's
    bootpeers are parameters; what [Start] sets in motion is returned as a
    list, in order, with its error result. *)
Inductive lifecycle_event :=
| GoEventLoop
| GoStatsLoop
| SetStreamHandler (protocolID : string)
| PubsubStart.

Definition Start (bootNodeFlag soloFlag : bool) (bootpeers : list PeerID)
  : list lifecycle_event * option error :=
  let loops := [GoEventLoop; GoStatsLoop] in
  if negb bootNodeFlag && negb soloFlag && (length bootpeers =? 0)%nat
  then (loops, Some (Err "no bootpeers provided. Unable to join network"))
  else
    let registered := loops ++ [SetStreamHandler ProtocolVersion] in
    if bootNodeFlag
    then (registered, None)
    else (registered ++ [PubsubStart], None).

(** ** Vocabulary of the further statements *)

(** The node with more events on its trace and nothing else changed. *)
Definition emit_all (t : list event) (p : Node) : Node :=
  {| cache := cache p; consensus := consensus p; nextRequestID := nextRequestID p;
     activeRequests := activeRequests p; trace := trace p ++ t |}.

(** A computation that can only append events satisfying [P] to the
    trace, whatever else it does to the node. *)
Definition traces {A} (P : event -> Prop) (m : M A) : Prop :=
  forall p, exists t, trace (snd (m p)) = trace p ++ t /\ Forall P t.

(** A computation that leaves an observation of the node as it was. *)
Definition preserves {X A} (f : Node -> X) (m : M A) : Prop :=
  forall p, f (snd (m p)) = f p.

(** Everything of the node but its trace. *)
Definition node_data (p : Node) : gmap Z value * option ConsensusAPI * Z * gset Z :=
  (cache p, consensus p, nextRequestID p, activeRequests p).

Definition is_write_to (peer : PeerID) (e : event) : Prop :=
  exists data, e = EvStreamWrite peer data.

Definition is_StreamClose (e : event) : Prop :=
  exists peer, e = EvStreamClose peer.

(** Every cache entry is stored under the hash its payload reports. *)
Definition cache_consistent (p : Node) : Prop :=
  forall h v, cache p !! h = Some v -> payloadHash v = Some h.

(** The tags that the dispatch of the read loop has a case for. *)
Definition hasCase (decodedType : value) : bool :=
  match decodedType with
  | BlockPtr _ | HeaderPtr _ | TransactionPtr _ | HashVal _ => true
  | _ => false
  end.

(** The frames of a stream that reach a case of the dispatch: those read
    before the first [io.EOF], without the failed reads, the frames that
    do not decode and the frames whose tag has no case. *)
Fixpoint dispatched_frames (pb : Codec) (reads : list (bytes + error)) : list bytes :=
  match reads with
  | [] => []
  | inr EOF :: _ => []
  | inr (Err _) :: rest => dispatched_frames pb rest
  | inl data :: rest =>
      match DecodeQuaiRequest pb data with
      | inr _ => dispatched_frames pb rest
      | inl (_, decodedType, _, _) =>
          if hasCase decodedType
          then data :: dispatched_frames pb rest
          else dispatched_frames pb rest
      end
  end.

(** A frame that asks for a block the node has, and the response frame
    that answers it: the encoding of the block under the request's ID. *)
Definition block_request_served (pb : Codec) (stream : Stream) (p : Node)
    (frame response : bytes) : Prop :=
  exists id tag loc hash block,
    DecodeQuaiRequest pb frame = inl (id, BlockPtr tag, loc, HashVal hash) /\
    fst (GetBlock hash loc p) = Done (Some block) /\
    EncodeQuaiResponse pb id (BlockPtr (Some block)) = inl response /\
    on_write stream response = None.

(** The peers the dispatcher may contact for a location: the topic peers
    and the providers of the three DHT rounds. *)
Definition contacted
    (PeersForTopic : Location -> value -> list PeerID * option error)
    (FindProvidersAsync : nat -> bytes -> nat -> list PeerID)
    (location : Location) (datatype : value) : list PeerID :=
  fst (PeersForTopic location datatype)
  ++ concat (map (fun retries =>
                    FindProvidersAsync retries (locationToCid location) peersPerDHTQuery)
                 (seq 0 maxDHTQueryRetries)).

(** A dispatcher step under an invariant [I] of the node: it keeps [I],
    however it ends, and every payload it delivers satisfies [Q]. *)
Definition delivers (I : Node -> Prop) (Q : value -> Prop) (m : M (list value)) : Prop :=
  forall p, I p ->
    I (snd (m p)) /\ forall vs, fst (m p) = Done vs -> Forall Q vs.


(** The body of the goroutine that [RequestByHash] spawns per peer: the
    request, then on success the cache and the result channel. *)
Definition attemptByHash (pb : Codec) (NewStream : PeerID -> Stream + error)
    (location : Location) (hash : Hash) (datatype : value) (peer : PeerID) : M (list value) :=
  r <- requestFromPeer pb NewStream peer location (HashVal hash) datatype ;;
  match snd r with
  | None => cacheAdd hash (fst r) ;;; ret [fst r]
  | Some _ => ret []
  end.

(** The body of the goroutine that [RequestByNumber] spawns per peer. *)
Definition attemptByNumber (pb : Codec) (NewStream : PeerID -> Stream + error)
    (location : Location) (number : option Z) (datatype : value) (peer : PeerID)
  : M (list value) :=
  r <- requestFromPeer pb NewStream peer location (BigIntPtr number) datatype ;;
  match snd r with
  | None => log "Received from peer" ;;; ret [fst r]
  | Some _ => ret []
  end.

(** The fan-out of a dispatcher over the topic peers and then over the
    providers of the three DHT rounds, one attempt per peer. *)
Definition fanout (FindProvidersAsync : nat -> bytes -> nat -> list PeerID)
    (location : Location) (peers : list PeerID) (attempt : PeerID -> M (list value))
  : M (list value) :=
  fromTopic <- for_each peers attempt ;;
  fromDHT <- for_each (seq 0 maxDHTQueryRetries) (fun retries =>
    for_each (FindProvidersAsync retries (locationToCid location) peersPerDHTQuery) attempt) ;;
  ret (fromTopic ++ fromDHT).



(** What a dispatcher may put on the trace: no ban but of a peer of the
    given list, and nothing for the consensus backend. *)
Definition dispatcher_event (peers : list PeerID) (e : event) : Prop :=
  (forall x, e = EvBanPeer x -> In x peers) /\
  (forall source data location, e <> EvOnNewBroadcast source data location).

(** * Properties *)

(** ** SHA-256 known answers: the empty string and "abc" *)
Example sha256_empty :
  SHA256.sum256 [] =
  [0xe3; 0xb0; 0xc4; 0x42; 0x98; 0xfc; 0x1c; 0x14; 0x9a; 0xfb; 0xf4; 0xc8; 0x99; 0x6f; 0xb9; 0x24;
   0x27; 0xae; 0x41; 0xe4; 0x64; 0x9b; 0x93; 0x4c; 0xa4; 0x95; 0x99; 0x1b; 0x78; 0x52; 0xb8; 0x55].
Proof. vm_compute. reflexivity. Qed.

Example sha256_abc :
  SHA256.sum256 (bytes_of_string "abc") =
  [0xba; 0x78; 0x16; 0xbf; 0x8f; 0x01; 0xcf; 0xea; 0x41; 0x41; 0x40; 0xde; 0x5d; 0xae; 0x22; 0x23;
   0xb0; 0x03; 0x61; 0xa3; 0x96; 0x17; 0x7a; 0x9c; 0xb4; 0x10; 0xff; 0x61; 0xf2; 0x00; 0x15; 0xad].
Proof. vm_compute. reflexivity. Qed.

(** The first and the last round constant, and the first word of the
    initial hash value, as printed in the standard. *)
Example sha256_constants :
  nth 0 SHA256.K 0 = 0x428a2f98 /\ nth 63 SHA256.K 0 = 0xc67178f2 /\
  nth 0 SHA256.H0 0 = 0x6a09e667.
Proof. vm_compute. repeat split. Qed.

(** ** Varints read back *)
Section VarintFacts.

Lemma low_group (x : Z) :
  Z.land (Z.lor (Z.land x 255) 128) 127 = Z.land x 127.
Proof.
  change 255 with (Z.ones 8). change 127 with (Z.ones 7). change 128 with (2 ^ 7).
  apply Z.bits_inj'. intros n Hn.
  rewrite !Z.land_spec, Z.lor_spec, Z.land_spec.
  rewrite !Z.testbit_ones_nonneg, Z.pow2_bits_eqb by lia.
  destruct (Z.ltb_spec n 7) as [Hlt | Hge].
  - replace (n <? 8) with true by (symmetry; apply Z.ltb_lt; lia).
    replace (7 =? n) with false by (symmetry; apply Z.eqb_neq; lia).
    now rewrite !andb_true_r, orb_false_r.
  - now rewrite !andb_false_r.
Qed.

Lemma join_groups (x s : Z) :
  0 <= s ->
  Z.lor (Z.shiftl (Z.land x 127) s) (Z.shiftl (Z.shiftr x 7) (s + 7)) = Z.shiftl x s.
Proof.
  intros Hs. change 127 with (Z.ones 7).
  apply Z.bits_inj'. intros n Hn.
  rewrite Z.lor_spec, !Z.shiftl_spec, Z.land_spec by lia.
  destruct (Z.ltb_spec (n - s) 0) as [Hneg | Hpos].
  - rewrite !(Z.testbit_neg_r _ (n - s)), (Z.testbit_neg_r _ (n - (s + 7))) by lia.
    reflexivity.
  - rewrite Z.testbit_ones_nonneg by lia.
    destruct (Z.ltb_spec (n - s) 7) as [Hlow | Hhigh].
    + rewrite (Z.testbit_neg_r _ (n - (s + 7))) by lia.
      now rewrite andb_true_r, orb_false_r.
    + rewrite Z.shiftr_spec by lia.
      replace (n - (s + 7) + 7) with (n - s) by lia.
      now rewrite andb_false_r.
Qed.

Lemma continuation_byte (x : Z) : 128 <= Z.lor (Z.land x 255) 128.
Proof.
  set (b := Z.lor (Z.land x 255) 128).
  assert (Hb : 0 <= b).
  { apply Z.lor_nonneg. split; [apply Z.land_nonneg; lia | lia]. }
  assert (Hbit : Z.testbit b 7 = true).
  { unfold b. rewrite Z.lor_spec. change 128 with (2 ^ 7).
    rewrite Z.pow2_bits_true by lia. apply orb_true_r. }
  apply Z.testbit_true in Hbit; [| lia].
  destruct (Z.lt_ge_cases b 128) as [Hlt | Hge]; [| exact Hge].
  change (2 ^ 7) with 128 in Hbit.
  rewrite Z.div_small in Hbit by lia. discriminate Hbit.
Qed.

Lemma small_byte (x : Z) : 0 <= x < 256 -> Z.land x 255 = x.
Proof.
  intros Hx. change 255 with (Z.ones 8).
  rewrite Z.land_ones by lia. apply Z.mod_small. lia.
Qed.

Lemma get_put_loop (fuel : nat) :
  forall x acc s rest,
    0 <= x < 2 ^ (7 * Z.of_nat fuel + 1) -> 0 <= s ->
    Varint.get_loop fuel (Varint.put_loop fuel x ++ rest) acc s
    = Some (Z.lor acc (Z.shiftl x s), rest).
Proof.
  induction fuel as [| fuel IH]; intros x acc s rest Hx Hs.
  - change (2 ^ (7 * Z.of_nat 0 + 1)) with 2 in Hx.
    cbn [Varint.put_loop Varint.get_loop app].
    rewrite small_byte by lia.
    replace (x <? 128) with true by (symmetry; apply Z.ltb_lt; lia).
    replace (1 <? x) with false by (symmetry; apply Z.ltb_ge; lia).
    reflexivity.
  - cbn [Varint.put_loop].
    destruct (Z.leb_spec 128 x) as [Hbig | Hsmall].
    + cbn [Varint.get_loop app].
      pose proof (continuation_byte x) as Hc.
      replace (Z.lor (Z.land x 255) 128 <? 128) with false
        by (symmetry; apply Z.ltb_ge; exact Hc).
      rewrite IH.
      * rewrite low_group, <- Z.lor_assoc, join_groups by lia. reflexivity.
      * rewrite Z.shiftr_div_pow2 by lia. change (2 ^ 7) with 128.
        split; [apply Z.div_pos; lia |].
        apply Z.div_lt_upper_bound; [lia |].
        replace (7 * Z.of_nat (S fuel) + 1) with (7 + (7 * Z.of_nat fuel + 1)) in Hx by lia.
        rewrite Z.pow_add_r in Hx by lia. change (2 ^ 7) with 128 in Hx. lia.
      * lia.
    + cbn [Varint.get_loop app].
      rewrite small_byte by lia.
      replace (x <? 128) with true by (symmetry; apply Z.ltb_lt; lia).
      reflexivity.
Qed.

(** A [uint64] written by [PutUvarint] is read back by [Uvarint], which
    stops exactly where the encoding ends. *)
Lemma Uvarint_PutUvarint (x : Z) (rest : bytes) :
  0 <= x < 2 ^ 64 ->
  Varint.Uvarint (Varint.PutUvarint x ++ rest) = Some (x, rest).
Proof.
  intros Hx. unfold Varint.Uvarint, Varint.PutUvarint.
  rewrite get_put_loop.
  - rewrite Z.shiftl_0_r, Z.lor_0_l. reflexivity.
  - exact Hx.
  - lia.
Qed.

End VarintFacts.

(** ** Content identifier *)

Lemma Multihash_Decode_Encode (digest : bytes) (code : Z) :
  0 <= code < 2 ^ 64 ->
  Z.of_nat (length digest) < 2 ^ 64 ->
  Multihash.Decode (Multihash.Encode digest code)
  = Some (code, Z.of_nat (length digest), digest).
Proof.
  intros Hcode Hlen. unfold Multihash.Decode, Multihash.Encode.
  rewrite Uvarint_PutUvarint by exact Hcode.
  rewrite Uvarint_PutUvarint by lia.
  rewrite Z.eqb_refl. reflexivity.
Qed.

Lemma Cid_Parse_NewCidV1 (codec : Z) (mhash : bytes) :
  0 <= codec < 2 ^ 64 ->
  Cid.Parse (Cid.NewCidV1 codec mhash) = Some (1, codec, mhash).
Proof.
  intros Hcodec. unfold Cid.Parse, Cid.NewCidV1.
  rewrite Uvarint_PutUvarint by lia.
  rewrite Uvarint_PutUvarint by exact Hcodec.
  reflexivity.
Qed.

Lemma byte_of_ascii_inj (a b : ascii) : byte_of_ascii a = byte_of_ascii b -> a = b.
Proof.
  unfold byte_of_ascii. intros H. apply N2Z.inj in H.
  rewrite <- (ascii_N_embedding a), <- (ascii_N_embedding b). now rewrite H.
Qed.

Lemma bytes_of_string_inj (s t : string) : bytes_of_string s = bytes_of_string t -> s = t.
Proof.
  unfold bytes_of_string. intros H.
  rewrite <- (string_of_list_ascii_of_string s), <- (string_of_list_ascii_of_string t).
  f_equal.
  revert H. generalize (list_ascii_of_string s) (list_ascii_of_string t).
  intros l1. induction l1 as [| a l1 IH]; intros [| b l2] H; try discriminate H.
  - reflexivity.
  - cbn [map] in H. injection H as Hab Hrest.
    f_equal; [apply byte_of_ascii_inj, Hab | apply IH, Hrest].
Qed.

(** X16: content identifiers are as distinct as names. The spec's
    invariant [cid(l1) = cid(l2) <-> l1.Name() = l2.Name()] holds of the
    code, whose identifiers embed the name itself behind its length. *)
Lemma locationToCid_inj (l1 l2 : Location) :
  Z.of_nat (length (bytes_of_string (Name l1))) < 2 ^ 64 ->
  Z.of_nat (length (bytes_of_string (Name l2))) < 2 ^ 64 ->
  (locationToCid l1 = locationToCid l2 <-> Name l1 = Name l2).
Proof.
  intros H1 H2. split.
  - intros Heq. apply bytes_of_string_inj.
    assert (Hp : Cid.Parse (locationToCid l1) = Cid.Parse (locationToCid l2)) by now rewrite Heq.
    unfold locationToCid in Hp.
    rewrite !Cid_Parse_NewCidV1 in Hp by (unfold Cid.Raw; lia).
    assert (Hd : Multihash.Decode (Multihash.Encode (bytes_of_string (Name l1)) Multihash.SHA2_256)
                 = Multihash.Decode (Multihash.Encode (bytes_of_string (Name l2)) Multihash.SHA2_256))
      by (f_equal; congruence).
    rewrite !Multihash_Decode_Encode in Hd by (unfold Multihash.SHA2_256; lia).
    congruence.
  - intros Heq. unfold locationToCid. now rewrite Heq.
Qed.

(** C6, as stated, fails: for the location named "prime" the code's
    identifier is not the CIDv1 built on the SHA2-256 digest of the name. *)
Lemma locationToCid_is_not_sha256_of_name :
  locationToCid Fixture.prime <> locationToCid_spec Fixture.prime.
Proof. vm_compute. discriminate. Qed.

(** The identifier of "prime", byte for byte: version 1, raw codec, the
    SHA2-256 function code, length 5 and the five letters of the name. *)
Example locationToCid_prime :
  locationToCid Fixture.prime = [0x01; 0x55; 0x12; 0x05; 0x70; 0x72; 0x69; 0x6d; 0x65].
Proof. vm_compute. reflexivity. Qed.

(** C6 (amended): [locationToCid location] is the CIDv1 with the raw codec
    whose multihash carries the SHA2-256 function code and, as its digest
    field, the bytes of [location.Name()] themselves, with their length;
    no digest is computed. The derivation is deterministic: locations with
    equal names get identical identifiers. *)
Theorem locationToCid_wraps_name (location : Location) :
  let name := bytes_of_string (Name location) in
  Z.of_nat (length name) < 2 ^ 64 ->
  (exists mhash,
      Cid.Parse (locationToCid location) = Some (1, Cid.Raw, mhash) /\
      Multihash.Decode mhash = Some (Multihash.SHA2_256, Z.of_nat (length name), name)) /\
  (forall location', Name location' = Name location ->
                     locationToCid location' = locationToCid location).
Proof.
  intros name Hlen. split.
  - exists (Multihash.Encode name Multihash.SHA2_256). split.
    + unfold locationToCid. fold name.
      apply Cid_Parse_NewCidV1. unfold Cid.Raw. lia.
    + apply Multihash_Decode_Encode; [unfold Multihash.SHA2_256; lia | exact Hlen].
  - intros location' Heq. unfold locationToCid. now rewrite Heq.
Qed.

Lemma locationToCid_wraps_name_witness :
  (exists mhash,
      Cid.Parse (locationToCid Fixture.prime) = Some (1, Cid.Raw, mhash) /\
      Multihash.Decode mhash
      = Some (Multihash.SHA2_256, 5, bytes_of_string "prime")) /\
  (forall location', Name location' = "prime" ->
                     locationToCid location' = locationToCid Fixture.prime).
Proof. apply (locationToCid_wraps_name Fixture.prime). vm_compute. reflexivity. Defined.

(** ** Running a sequence *)

Lemma bind_run_done {A B} (m : M A) (k : A -> M B) (p q : Node) (a : A) :
  m p = (Done a, q) -> bind m k p = k a q.
Proof. intros H. unfold bind. now rewrite H. Qed.

Lemma bind_run_panic {A B} (m : M A) (k : A -> M B) (p q : Node) (msg : string) :
  m p = (Panic msg, q) -> bind m k p = (Panic msg, q).
Proof. intros H. unfold bind. now rewrite H. Qed.

(** ** Computations that leave the response cache alone *)

Definition keeps_cache {A} (m : M A) : Prop :=
  forall p, cache (snd (m p)) = cache p.

Create HintDb frame discriminated.

Lemma keeps_cache_ret {A} (a : A) : keeps_cache (ret a).
Proof. intros p. reflexivity. Qed.

Lemma keeps_cache_panic {A} (msg : string) : keeps_cache (@panic A msg).
Proof. intros p. reflexivity. Qed.

Lemma keeps_cache_log (msg : string) : keeps_cache (log msg).
Proof. intros p. reflexivity. Qed.

Lemma keeps_cache_get {A} (f : Node -> A) : keeps_cache (get f).
Proof. intros p. reflexivity. Qed.

Lemma keeps_cache_bind {A B} (m : M A) (k : A -> M B) :
  keeps_cache m -> (forall a, keeps_cache (k a)) -> keeps_cache (bind m k).
Proof.
  intros Hm Hk p. unfold bind. specialize (Hm p).
  destruct (m p) as [[a | msg] p']; cbn [snd] in *.
  - now rewrite Hk.
  - exact Hm.
Qed.

Lemma keeps_cache_modify (f : Node -> Node) :
  (forall p, cache (f p) = cache p) -> keeps_cache (modify f).
Proof. intros Hf p. apply Hf. Qed.

Lemma keeps_cache_defer {A} (d : Node -> Node) (body : M A) :
  (forall p, cache (d p) = cache p) -> keeps_cache body -> keeps_cache (defer d body).
Proof.
  intros Hd Hbody p. unfold defer. specialize (Hbody p).
  destruct (body p) as [r p']. cbn [snd] in *. now rewrite Hd.
Qed.

Lemma keeps_cache_for_each {A B} (l : list A) (f : A -> M (list B)) :
  (forall a, keeps_cache (f a)) -> keeps_cache (for_each l f).
Proof.
  intros Hf. induction l as [| a l IH]; cbn [for_each].
  - apply keeps_cache_ret.
  - apply keeps_cache_bind; [apply Hf |]. intros r.
    apply keeps_cache_bind; [exact IH |]. intros rs. apply keeps_cache_ret.
Qed.

Lemma cache_emit (e : event) (p : Node) : cache (emit e p) = cache p.
Proof. reflexivity. Qed.

#[local] Hint Resolve keeps_cache_ret keeps_cache_panic keeps_cache_log keeps_cache_get
  keeps_cache_for_each : frame.

(** One step of a frame proof: split a sequence, or take a branch. *)
Ltac frame_step :=
  match goal with
  | |- keeps_cache (bind _ _) => apply keeps_cache_bind; [| intros ?]
  | |- keeps_cache (defer _ _) => apply keeps_cache_defer; [intros ?; reflexivity |]
  | |- keeps_cache (modify _) => apply keeps_cache_modify; intros ?; reflexivity
  | |- keeps_cache (for_each _ _) => apply keeps_cache_for_each; intros ?
  | |- keeps_cache (match ?x with _ => _ end) => destruct x
  | |- keeps_cache (if ?b then _ else _) => destruct b
  | |- keeps_cache (let '(_, _) := ?x in _) => destruct x
  | |- keeps_cache _ => solve [auto with frame]
  end.

Ltac frame := repeat frame_step.

Section Frame.

Variable pb : Codec.
Variable NewStream : PeerID -> Stream + error.
Variable PeersForTopic : Location -> value -> list PeerID * option error.
Variable FindProvidersAsync : nat -> bytes -> nat -> list PeerID.

Lemma keeps_cache_GenerateRequestID : keeps_cache GenerateRequestID.
Proof. intros p. reflexivity. Qed.

Lemma keeps_cache_AddRequestID (id : Z) : keeps_cache (AddRequestID id).
Proof. intros p. reflexivity. Qed.

Lemma keeps_cache_RemoveRequestID (id : Z) : keeps_cache (RemoveRequestID id).
Proof. intros p. reflexivity. Qed.

Lemma keeps_cache_WriteMessageToStream (stream : Stream) (data : bytes) :
  keeps_cache (WriteMessageToStream stream data).
Proof. unfold WriteMessageToStream. frame. Qed.

Lemma keeps_cache_BanPeer (peer : PeerID) : keeps_cache (BanPeer peer).
Proof. unfold BanPeer. frame. Qed.

Lemma keeps_cache_checkResponse (data datatype recvdType : value) :
  keeps_cache (checkResponse data datatype recvdType).
Proof.
  unfold checkResponse, Block_Hash, Header_Hash, Transaction_Hash, assert_Hash. frame.
Qed.

Hint Resolve keeps_cache_GenerateRequestID keeps_cache_AddRequestID
  keeps_cache_RemoveRequestID keeps_cache_WriteMessageToStream keeps_cache_BanPeer
  keeps_cache_checkResponse : frame.

Lemma keeps_cache_requestFromPeer peerID location data datatype :
  keeps_cache (requestFromPeer pb NewStream peerID location data datatype).
Proof. unfold requestFromPeer, validateOrBan. frame. Qed.

Hint Resolve keeps_cache_requestFromPeer : frame.

Lemma keeps_cache_RequestByNumber location number datatype :
  keeps_cache
    (RequestByNumber pb NewStream PeersForTopic FindProvidersAsync location number datatype).
Proof. unfold RequestByNumber. frame. Qed.

End Frame.

(** C8: [RequestByNumber] never writes to the response cache: whatever the
    peers answer, and whether the dispatcher finishes or a requester
    panics, the cache afterwards is the cache before; so every lookup
    [cacheGet hash datatype] made afterwards, such as the one that starts a
    follow-up [RequestByHash] for a delivered hash, gives what it gave
    before, a miss where it was a miss. *)
Theorem RequestByNumber_leaves_cache
    (pb : Codec) (NewStream : PeerID -> Stream + error)
    (PeersForTopic : Location -> value -> list PeerID * option error)
    (FindProvidersAsync : nat -> bytes -> nat -> list PeerID)
    (location : Location) (number : option Z) (datatype : value) (p : Node) :
  let p' := snd (RequestByNumber pb NewStream PeersForTopic FindProvidersAsync
                                 location number datatype p) in
  cache p' = cache p /\
  forall (hash : Hash) (datatype' : value),
    cacheGet hash datatype' p' = (fst (cacheGet hash datatype' p), p').
Proof.
  intros p'.
  assert (Hc : cache p' = cache p) by apply keeps_cache_RequestByNumber.
  split; [exact Hc |].
  intros hash datatype'. unfold cacheGet, get. cbn [fst]. now rewrite Hc.
Qed.

(** ** The peer requester *)

Section Requester.

Variable pb : Codec.
Variable NewStream : PeerID -> Stream + error.

(** An attempt that reaches a decoded response with the ID that was sent
    removes the ID and ends with the validation, then closes the stream. *)
Lemma requestFromPeer_answered peerID location data datatype p stream requestBytes recvdType :
  answered pb NewStream peerID location data datatype p stream requestBytes
           (nextRequestID p) recvdType ->
  requestFromPeer pb NewStream peerID location data datatype p
  = let '(r, q) :=
      (RemoveRequestID (nextRequestID p) ;;;
       validateOrBan peerID data datatype recvdType) (sent stream requestBytes p) in
    (r, stream_Close stream q).
Proof.
  intros (Hopen & Henc & Hwrite & responseBytes & Hread & Hdec).
  unfold requestFromPeer. rewrite Hopen.
  unfold defer, bind at 1. unfold GenerateRequestID.
  rewrite Henc.
  unfold bind at 1. unfold WriteMessageToStream. rewrite Hwrite.
  unfold bind at 1, modify, ret. unfold bind at 1, AddRequestID, modify.
  rewrite Hread, Hdec, Z.eqb_refl. cbn [negb].
  match goal with
  | |- (let '(_, _) := _ ?s in _) = _ => replace s with (sent stream requestBytes p)
  end; [reflexivity |].
  unfold sent, emit, set_activeRequests, set_nextRequestID. cbn.
  f_equal. now rewrite <- !app_assoc.
Qed.

(** A payload is returned only out of the validation switch. *)
Lemma requestFromPeer_returns_checked peerID location data datatype p payload p' :
  requestFromPeer pb NewStream peerID location data datatype p = (Done (payload, None), p') ->
  exists recvdType q q',
    checkResponse data datatype recvdType q = (Done (Some payload), q').
Proof.
  unfold requestFromPeer. intros H.
  destruct (NewStream peerID) as [stream | err]; [| discriminate H].
  unfold defer, bind at 1, GenerateRequestID in H.
  destruct (EncodeQuaiRequest pb _ location data datatype) as [requestBytes | err];
    [| discriminate H].
  unfold bind at 1, WriteMessageToStream in H.
  destruct (on_write stream requestBytes); [discriminate H |].
  unfold bind at 1, modify, ret in H. unfold bind at 1, AddRequestID, modify in H.
  destruct (reply stream requestBytes) as [responseBytes | err]; [| discriminate H].
  destruct (DecodeQuaiResponse pb responseBytes) as [[recvdID recvdType] | err];
    [| discriminate H].
  destruct (negb (recvdID =? _)); [discriminate H |].
  unfold bind at 1, RemoveRequestID, modify, validateOrBan in H.
  unfold bind at 1 in H.
  match type of H with
  | context [checkResponse ?d ?t ?r ?q] =>
      destruct (checkResponse d t r q) as [[[v |] | msg] q'] eqn:Hcheck
  end.
  - cbn in H. exists recvdType. do 2 eexists.
    replace payload with v by congruence. exact Hcheck.
  - unfold BanPeer, bind, log, modify, ret in H. discriminate H.
  - discriminate H.
Qed.

End Requester.

(** What the validation switch lets through on a by-hash request. *)
Lemma checkResponse_byHash_sound hash datatype recvdType payload q q' :
  byHash datatype = true ->
  checkResponse (HashVal hash) datatype recvdType q = (Done (Some payload), q') ->
  payload = recvdType /\ kindOf payload = kindOf datatype /\ payloadHash payload = Some hash.
Proof.
  intros Htag H.
  destruct datatype; try discriminate Htag;
    destruct recvdType as [| [rb |] | [rh |] | [rt |] | | | | | |];
    cbn in H; try discriminate H;
    match type of H with
    | context [?a =? ?b] => destruct (Z.eqb_spec a b) as [Heq | Hne]
    end; try discriminate H;
    injection H as <- <-; cbn; subst; auto.
Qed.

(** What the validation switch refuses. *)
Lemma checkResponse_rejected data datatype recvdType q :
  rejected data datatype recvdType ->
  checkResponse data datatype recvdType q = (Done None, q).
Proof.
  intros [[Hkind | Hnone] | want got Htag Hkind -> Hgot Hne].
  - destruct datatype, recvdType; try reflexivity; cbn in Hkind; congruence.
  - destruct datatype; try reflexivity; discriminate Hnone.
  - destruct datatype; try discriminate Htag;
      destruct recvdType as [| [rb |] | [rh |] | [rt |] | | | | | |];
      try discriminate Hkind; try discriminate Hgot;
      cbn in Hgot; injection Hgot as Hgot; subst got; cbn;
      unfold bind, assert_Hash, ret;
      match goal with
      | |- context [?a =? want] => destruct (Z.eqb_spec a want); [contradiction | reflexivity]
      end.
Qed.

(** C2: for a by-hash request (tag Block, Header or Transaction),
    [requestFromPeer] returns a payload only if the payload is of the
    requested kind and its [Hash()] is the requested hash; when a decoded
    response fails validation (wrong kind, or right kind and another
    hash), the peer is banned through the peer manager, its connection
    closed, and the error "invalid response" returned; for a by-number
    request whatever hash the peer returns is accepted, without a ban. *)
Theorem requestFromPeer_validates
    (pb : Codec) (NewStream : PeerID -> Stream + error)
    (peerID : PeerID) (location : Location) (p : Node) :
  (forall hash datatype payload p',
      byHash datatype = true ->
      requestFromPeer pb NewStream peerID location (HashVal hash) datatype p
      = (Done (payload, None), p') ->
      kindOf payload = kindOf datatype /\ payloadHash payload = Some hash) /\
  (forall data datatype stream requestBytes recvdType,
      answered pb NewStream peerID location data datatype p stream requestBytes
               (nextRequestID p) recvdType ->
      rejected data datatype recvdType ->
      let r := requestFromPeer pb NewStream peerID location data datatype p in
      fst r = Done (Nil, Some invalid_response) /\
      trace (snd r)
      = trace (sent stream requestBytes p)
        ++ [EvRemove (nextRequestID p); EvBanPeer peerID; EvClosePeer peerID;
            EvStreamClose (RemotePeer stream)]) /\
  (forall number tag stream requestBytes answer,
      answered pb NewStream peerID location (BigIntPtr number) (HashPtr tag) p
               stream requestBytes (nextRequestID p) (HashPtr answer) ->
      let r := requestFromPeer pb NewStream peerID location (BigIntPtr number) (HashPtr tag) p in
      fst r = Done (HashPtr answer, None) /\
      trace (snd r)
      = trace (sent stream requestBytes p)
        ++ [EvRemove (nextRequestID p); EvStreamClose (RemotePeer stream)]).
Proof.
  split; [| split].
  - intros hash datatype payload p' Htag Hrun.
    apply requestFromPeer_returns_checked in Hrun as (recvdType & q & q' & Hcheck).
    apply checkResponse_byHash_sound in Hcheck; [| exact Htag]. tauto.
  - intros data datatype stream requestBytes recvdType Hans Hrej r. subst r.
    rewrite (requestFromPeer_answered _ _ _ _ _ _ _ _ _ _ Hans).
    unfold RemoveRequestID, modify, validateOrBan, bind.
    rewrite !checkResponse_rejected by exact Hrej.
    cbn. split; [reflexivity |]. now rewrite <- !app_assoc.
  - intros number tag stream requestBytes answer Hans r. subst r.
    rewrite (requestFromPeer_answered _ _ _ _ _ _ _ _ _ _ Hans).
    cbn. split; [reflexivity |]. now rewrite <- !app_assoc.
Qed.

(** The three parts on concrete peers: an honest peer asked for block 7, a
    peer that answers with block 8, and a by-number request. *)
Lemma requestFromPeer_validates_witness :
  (kindOf (BlockPtr (Some {| block_hash := 7; block_body := [] |})) = Some TagBlock /\
   payloadHash (BlockPtr (Some {| block_hash := 7; block_body := [] |})) = Some 7) /\
  (fst (requestFromPeer Fixture.pb Fixture.NewStream "liar" Fixture.prime
                        (HashVal 7) (BlockPtr None) Fixture.fresh)
   = Done (Nil, Some invalid_response) /\
   trace (snd (requestFromPeer Fixture.pb Fixture.NewStream "liar" Fixture.prime
                               (HashVal 7) (BlockPtr None) Fixture.fresh))
   = [EvGenerate 0; EvStreamWrite "liar" [0; 0; 7]; EvAdd 0; EvRemove 0;
      EvBanPeer "liar"; EvClosePeer "liar"; EvStreamClose "liar"]) /\
  (fst (requestFromPeer Fixture.pb Fixture.NewStream "liar" Fixture.prime
                        (BigIntPtr (Some 42)) (HashPtr None) Fixture.fresh)
   = Done (HashPtr (Some 43), None) /\
   trace (snd (requestFromPeer Fixture.pb Fixture.NewStream "liar" Fixture.prime
                               (BigIntPtr (Some 42)) (HashPtr None) Fixture.fresh))
   = [EvGenerate 0; EvStreamWrite "liar" [0; 3; 42]; EvAdd 0; EvRemove 0;
      EvStreamClose "liar"]).
Proof.
  split; [| split].
  - apply (proj1 (requestFromPeer_validates Fixture.pb Fixture.NewStream "honest"
                    Fixture.prime Fixture.fresh)
             7 (BlockPtr None) _
             (snd (requestFromPeer Fixture.pb Fixture.NewStream "honest" Fixture.prime
                                   (HashVal 7) (BlockPtr None) Fixture.fresh))).
    + reflexivity.
    + vm_compute. reflexivity.
  - apply (proj1 (proj2 (requestFromPeer_validates Fixture.pb Fixture.NewStream "liar"
                           Fixture.prime Fixture.fresh))
             (HashVal 7) (BlockPtr None)
             (Fixture.stream_to "liar" (fun req =>
                match req with [id; k; x] => inl [id; k; x + 1] | _ => inr (Err "reset") end))
             [0; 0; 7]
             (BlockPtr (Some {| block_hash := 8; block_body := [] |}))).
    + repeat split; try reflexivity. exists [0; 0; 8]. split; reflexivity.
    + apply rejected_hash with (want := 7) (got := 8); try reflexivity. lia.
  - apply (proj2 (proj2 (requestFromPeer_validates Fixture.pb Fixture.NewStream "liar"
                           Fixture.prime Fixture.fresh))
             (Some 42) None
             (Fixture.stream_to "liar" (fun req =>
                match req with [id; k; x] => inl [id; k; x + 1] | _ => inr (Err "reset") end))
             [0; 3; 42] (Some 43)).
    repeat split; try reflexivity. exists [0; 3; 43]. split; reflexivity.
Defined.

(** C3 (the code departs from the claim): the Generate/Add/Remove pairing
    is broken by the early returns of [requestFromPeer]. When the request
    cannot be encoded the generated ID is never added; when the response
    cannot be read (transport failure or timeout) the ID was added and is
    never removed: it is still pending after the attempt has returned. *)
Theorem requestFromPeer_early_returns_unbalance_registry
    (pb : Codec) (NewStream : PeerID -> Stream + error)
    (peerID : PeerID) (location : Location) (data datatype : value) (p : Node)
    (stream : Stream) :
  NewStream peerID = inl stream ->
  let id := nextRequestID p in
  let r := requestFromPeer pb NewStream peerID location data datatype p in
  (forall err,
      EncodeQuaiRequest pb id location data datatype = inr err ->
      fst r = Done (Nil, Some err) /\
      trace (snd r) = trace p ++ [EvGenerate id; EvStreamClose (RemotePeer stream)] /\
      activeRequests (snd r) = activeRequests p) /\
  (forall requestBytes err,
      EncodeQuaiRequest pb id location data datatype = inl requestBytes ->
      on_write stream requestBytes = None ->
      reply stream requestBytes = inr err ->
      fst r = Done (Nil, Some err) /\
      trace (snd r)
      = trace p ++ [EvGenerate id; EvStreamWrite (RemotePeer stream) requestBytes;
                    EvAdd id; EvStreamClose (RemotePeer stream)] /\
      id ∈ activeRequests (snd r)).
Proof.
  intros Hopen id r. subst r. unfold requestFromPeer. rewrite Hopen. split.
  - intros err Henc.
    unfold defer, bind, GenerateRequestID. fold id. rewrite Henc. cbn.
    repeat split. now rewrite <- !app_assoc.
  - intros requestBytes err Henc Hwrite Hread.
    unfold defer, bind, GenerateRequestID, WriteMessageToStream. fold id.
    rewrite Henc, Hwrite. unfold modify, ret, AddRequestID, modify. rewrite Hread. cbn.
    repeat split.
    + now rewrite <- !app_assoc.
    + set_solver.
Qed.

Lemma requestFromPeer_early_returns_unbalance_registry_witness :
  let r := requestFromPeer Fixture.pb Fixture.NewStream "silent" Fixture.prime
                           (HashVal 7) (BlockPtr None) Fixture.fresh in
  fst r = Done (Nil, Some (Err "i/o deadline reached")) /\
  trace (snd r)
  = [EvGenerate 0; EvStreamWrite "silent" [0; 0; 7]; EvAdd 0; EvStreamClose "silent"] /\
  0 ∈ activeRequests (snd r).
Proof.
  apply (proj2 (requestFromPeer_early_returns_unbalance_registry
                  Fixture.pb Fixture.NewStream "silent" Fixture.prime
                  (HashVal 7) (BlockPtr None) Fixture.fresh
                  (Fixture.stream_to "silent" (fun _ => inr (Err "i/o deadline reached")))
                  eq_refl)
           [0; 0; 7] (Err "i/o deadline reached")); reflexivity.
Defined.

(** The same run counted on its trace: one Generate, one Add, no Remove. *)
Example silent_peer_leaves_id_pending :
  let t := trace (snd (requestFromPeer Fixture.pb Fixture.NewStream "silent" Fixture.prime
                                       (HashVal 7) (BlockPtr None) Fixture.fresh)) in
  occurrences (EvGenerate 0) t = 1%nat /\
  occurrences (EvAdd 0) t = 1%nat /\
  occurrences (EvRemove 0) t = 0%nat.
Proof. vm_compute. repeat split. Qed.

(** C4 (the code departs from the claim): when the decoded response
    carries another request ID than the one sent, [requestFromPeer] does
    not return an error: it panics with "TODO: implement". No ban is
    recorded and the sent ID stays in the pending set; only the deferred
    stream close runs. *)
Theorem requestFromPeer_wrong_id_panics
    (pb : Codec) (NewStream : PeerID -> Stream + error)
    (peerID : PeerID) (location : Location) (data datatype : value) (p : Node)
    (stream : Stream) (requestBytes : bytes) (recvdID : Z) (recvdType : value) :
  answered pb NewStream peerID location data datatype p stream requestBytes recvdID recvdType ->
  recvdID <> nextRequestID p ->
  let r := requestFromPeer pb NewStream peerID location data datatype p in
  fst r = Panic "TODO: implement" /\
  trace (snd r)
  = trace p ++ [EvGenerate (nextRequestID p); EvStreamWrite (RemotePeer stream) requestBytes;
                EvAdd (nextRequestID p); EvStreamClose (RemotePeer stream)] /\
  nextRequestID p ∈ activeRequests (snd r).
Proof.
  intros (Hopen & Henc & Hwrite & responseBytes & Hread & Hdec) Hid r. subst r.
  unfold requestFromPeer. rewrite Hopen.
  unfold defer, bind, GenerateRequestID, WriteMessageToStream.
  rewrite Henc, Hwrite. unfold modify, ret, AddRequestID, modify.
  rewrite Hread, Hdec.
  replace (recvdID =? nextRequestID p) with false by (symmetry; apply Z.eqb_neq; exact Hid).
  cbn. repeat split.
  - now rewrite <- !app_assoc.
  - set_solver.
Qed.

Lemma requestFromPeer_wrong_id_panics_witness :
  let r := requestFromPeer Fixture.pb Fixture.NewStream "confused" Fixture.prime
                           (HashVal 7) (BlockPtr None) Fixture.fresh in
  fst r = Panic "TODO: implement" /\
  trace (snd r)
  = [EvGenerate 0; EvStreamWrite "confused" [0; 0; 7]; EvAdd 0; EvStreamClose "confused"] /\
  0 ∈ activeRequests (snd r).
Proof.
  apply (requestFromPeer_wrong_id_panics
           Fixture.pb Fixture.NewStream "confused" Fixture.prime
           (HashVal 7) (BlockPtr None) Fixture.fresh
           (Fixture.stream_to "confused" (fun req =>
              match req with [id; k; x] => inl [id + 1; k; x] | _ => inr (Err "reset") end))
           [0; 0; 7] 1 (BlockPtr (Some {| block_hash := 7; block_body := [] |}))).
  - repeat split; try reflexivity. exists [1; 0; 7]. split; reflexivity.
  - cbn. lia.
Defined.

(** ** The node facade *)

(** C7 (the code departs from the claim): [GetHeader] consults neither the
    cache nor the backend; for every hash and location it panics with
    "TODO: implement" and leaves the node as it was. *)
Theorem GetHeader_panics (hash : Hash) (location : Location) (p : Node) :
  GetHeader hash location p = (Panic "TODO: implement", p).
Proof. reflexivity. Qed.

(** [GetBlock], the sibling that does what C7 asks of [GetHeader]: the
    cached block on a hit, the backend's [LookupBlock] otherwise. *)
Lemma GetBlock_cache_then_backend (hash : Hash) (location : Location) (p : Node) :
  (forall b, cache p !! hash = Some (BlockPtr b) ->
             GetBlock hash location p = (Done b, p)) /\
  (forall be, cache p !! hash = None -> consensus p = Some be ->
              GetBlock hash location p = (Done (LookupBlock be hash location), p)).
Proof.
  split.
  - intros b Hhit. unfold GetBlock, bind, cacheGet, get. rewrite Hhit. reflexivity.
  - intros be Hmiss Hbe. unfold GetBlock, bind, cacheGet, get, backend.
    rewrite Hmiss. cbn. rewrite Hbe. reflexivity.
Qed.

(** A header held in the cache under the Header tag, and known to the
    backend, is not served either. *)
Example GetHeader_cached_header_panics :
  let header := {| header_hash := 7; header_body := [1] |} in
  let p := set_cache {[ 7 := HeaderPtr (Some header) ]} Fixture.serving in
  fst (cacheGet 7 (HeaderPtr None) p) = Done (HeaderPtr (Some header), true) /\
  fst (GetHeader 7 Fixture.prime p) = Panic "TODO: implement".
Proof. vm_compute. split; reflexivity. Qed.

(** C9: [handleBroadcast] forwards to the consensus backend only when one
    has been set. With no backend a Block broadcast is still put in the
    cache, nothing is forwarded and the call returns; with a backend the
    block is cached and then forwarded; any payload that is not a
    [types.Block] is dropped: neither cached nor forwarded. *)
Theorem handleBroadcast_guards_backend
    (sourcePeer : PeerID) (data : value) (nodeLocation : Location) (p : Node) :
  let r := handleBroadcast sourcePeer data nodeLocation p in
  fst r = Done tt /\
  (forall block, data = BlockVal block -> consensus p = None ->
     snd r = set_cache (<[block_hash block := BlockPtr (Some block)]> (cache p)) p) /\
  (forall block be, data = BlockVal block -> consensus p = Some be ->
     snd r = emit (EvOnNewBroadcast sourcePeer data nodeLocation)
               (set_cache (<[block_hash block := BlockPtr (Some block)]> (cache p)) p)) /\
  ((forall block, data <> BlockVal block) -> snd r = p) /\
  (trace (snd r) <> trace p -> consensus p <> None).
Proof.
  intros r. subst r. unfold handleBroadcast.
  destruct data; cbn;
    try (repeat split; try discriminate; try reflexivity; intros; congruence).
  unfold bind, cacheAdd, modify, get. cbn.
  destruct (consensus p) as [be |] eqn:Hbe; cbn.
  - repeat split; try discriminate.
    + intros block be' [= <-] _. reflexivity.
    + intros Hall. now destruct (Hall b).
  - repeat split; try discriminate.
    + intros block [= <-] _. reflexivity.
    + intros Hall. now destruct (Hall b).
    + intros Hneq. now destruct Hneq.
Qed.

(** Once [SetConsensusBackend] has run, a Block broadcast reaches the
    backend, after the cache. *)
Lemma handleBroadcast_after_SetConsensusBackend
    (be : ConsensusAPI) (sourcePeer : PeerID) (block : Block) (loc : Location) (p : Node) :
  (SetConsensusBackend be ;;; handleBroadcast sourcePeer (BlockVal block) loc) p
  = (Done tt,
     emit (EvOnNewBroadcast sourcePeer (BlockVal block) loc)
       (set_cache (<[block_hash block := BlockPtr (Some block)]> (cache p))
          (set_consensus (Some be) p))).
Proof. reflexivity. Qed.

Lemma handleBroadcast_guards_backend_witness :
  let block := {| block_hash := 7; block_body := [1; 2] |} in
  snd (handleBroadcast "honest" (BlockVal block) Fixture.prime Fixture.fresh)
  = set_cache (<[7 := BlockPtr (Some block)]> ∅) Fixture.fresh /\
  snd (handleBroadcast "honest" (BlockVal block) Fixture.prime Fixture.serving)
  = emit (EvOnNewBroadcast "honest" (BlockVal block) Fixture.prime)
         (set_cache (<[7 := BlockPtr (Some block)]> ∅) Fixture.serving) /\
  snd (handleBroadcast "honest" (HeaderPtr None) Fixture.prime Fixture.serving)
  = Fixture.serving.
Proof.
  intros block. split; [| split].
  - apply (proj1 (proj2 (handleBroadcast_guards_backend
                           "honest" (BlockVal block) Fixture.prime Fixture.fresh))
             block); reflexivity.
  - apply (proj1 (proj2 (proj2 (handleBroadcast_guards_backend
                                  "honest" (BlockVal block) Fixture.prime Fixture.serving)))
             block Fixture.chain); reflexivity.
  - apply (proj1 (proj2 (proj2 (proj2 (handleBroadcast_guards_backend
                                         "honest" (HeaderPtr None) Fixture.prime
                                         Fixture.serving))))).
    intros b. discriminate.
Defined.

(** ** The dispatcher's cache fast path *)

(** C10: on a cache hit [RequestByHash] sends the cached value through the
    assertion to [*types.Block] whatever the requested datatype: a hit on
    a stored Block sends that block and nothing else, with no stream
    opened; a hit on any other stored payload, such as a Header requested
    under the Header tag, fails the assertion and panics. *)
Theorem RequestByHash_cache_hit_asserts_block
    (pb : Codec) (NewStream : PeerID -> Stream + error)
    (PeersForTopic : Location -> value -> list PeerID * option error)
    (FindProvidersAsync : nat -> bytes -> nat -> list PeerID)
    (location : Location) (hash : Hash) (datatype res : value) (p : Node) :
  fst (cacheGet hash datatype p) = Done (res, true) ->
  let r := RequestByHash pb NewStream PeersForTopic FindProvidersAsync
                         location hash datatype p in
  (forall block, res = BlockPtr block -> r = (Done [BlockPtr block], p)) /\
  ((forall block, res <> BlockPtr block) -> r = (Panic bad_assertion, p)).
Proof.
  intros Hhit r. subst r. unfold RequestByHash, bind.
  unfold cacheGet, get in *. cbn [fst] in Hhit. injection Hhit as Hhit.
  rewrite Hhit. cbn [snd fst]. unfold log, ret. split.
  - intros block ->. reflexivity.
  - intros Hnot. destruct res; try reflexivity. now destruct (Hnot b).
Qed.

(** Both cases on a node whose cache holds block 7 and header 9. *)
Lemma RequestByHash_cache_hit_asserts_block_witness :
  let block := {| block_hash := 7; block_body := [1; 2] |} in
  let header := {| header_hash := 9; header_body := [3] |} in
  let p := set_cache {[ 7 := BlockPtr (Some block); 9 := HeaderPtr (Some header) ]}
                     Fixture.fresh in
  RequestByHash Fixture.pb Fixture.NewStream (Fixture.PeersForTopic ["honest"])
                (Fixture.FindProvidersAsync []) Fixture.prime 7 (BlockPtr None) p
  = (Done [BlockPtr (Some block)], p) /\
  RequestByHash Fixture.pb Fixture.NewStream (Fixture.PeersForTopic ["honest"])
                (Fixture.FindProvidersAsync []) Fixture.prime 9 (HeaderPtr None) p
  = (Panic bad_assertion, p).
Proof.
  intros block header p. split.
  - apply (proj1 (RequestByHash_cache_hit_asserts_block
                    Fixture.pb Fixture.NewStream (Fixture.PeersForTopic ["honest"])
                    (Fixture.FindProvidersAsync []) Fixture.prime 7 (BlockPtr None)
                    (BlockPtr (Some block)) p eq_refl)).
    reflexivity.
  - apply (proj2 (RequestByHash_cache_hit_asserts_block
                    Fixture.pb Fixture.NewStream (Fixture.PeersForTopic ["honest"])
                    (Fixture.FindProvidersAsync []) Fixture.prime 9 (HeaderPtr None)
                    (HeaderPtr (Some header)) p eq_refl)).
    intros b. discriminate.
Defined.

(** ** The stream protocol handler *)

Section Handler.

Variable pb : Codec.

(** The handler on a stream of the right protocol that carries one
    frame. *)
Lemma QuaiProtocolHandler_one_frame (stream : Stream) (data : bytes) (p : Node) :
  Protocol stream = ProtocolVersion ->
  incoming stream = [inl data] ->
  QuaiProtocolHandler pb stream p
  = let '(r, q) := (read_loop pb stream [inl data] ;;; log "Exiting Quai Protocol Handler") p in
    (r, stream_Close stream q).
Proof.
  intros Hproto Hin. unfold QuaiProtocolHandler, defer.
  rewrite Hproto, Hin. reflexivity.
Qed.

(** X21: the block-number handler itself does answer, given a number: it
    asks the backend and writes the encoded hash pointer, nil when the
    number is unknown, with the request ID. *)
Lemma handleBlockNumberRequest_replies
    (id : Z) (loc : Location) (number : Z) (stream : Stream) (p : Node)
    (be : ConsensusAPI) (data : bytes) :
  consensus p = Some be ->
  EncodeQuaiResponse pb id (HashPtr (LookupBlockHashByNumber be number loc)) = inl data ->
  on_write stream data = None ->
  handleBlockNumberRequest pb id loc number stream p
  = (Done None, emit (EvStreamWrite (RemotePeer stream) data) p).
Proof.
  intros Hbe Henc Hwrite.
  unfold handleBlockNumberRequest, GetBlockHashByNumber, backend, bind.
  rewrite Hbe. cbn.
  destruct (LookupBlockHashByNumber be number loc); cbn;
    unfold bind, WriteMessageToStream; rewrite Henc, Hwrite; reflexivity.
Qed.

End Handler.

(** C1 (the code departs from the claim): a request frame that decodes to
    the BlockHash tag with a block-number selector never reaches the part
    of the block-number handler that answers. The selector is a
    [*big.Int]. When the tag is decoded as the requester sends it, a
    [*common.Hash], no case of the dispatch matches: the request is logged
    as unsupported and dropped. When the tag is decoded as a [common.Hash]
    value, the case for the block-number handler is taken and its
    assertion of the selector to [big.Int] panics. For every decoded tag,
    nothing is written on the stream. *)
Theorem QuaiProtocolHandler_block_number_request_unanswered
    (pb : Codec) (stream : Stream) (data : bytes) (p : Node)
    (id : Z) (decodedType : value) (loc : Location) (number : option Z) :
  Protocol stream = ProtocolVersion ->
  incoming stream = [inl data] ->
  DecodeQuaiRequest pb data = inl (id, decodedType, loc, BigIntPtr number) ->
  let r := QuaiProtocolHandler pb stream p in
  snd r = stream_Close stream p /\
  (forall tag, decodedType = HashPtr tag -> fst r = Done tt) /\
  (forall tag, decodedType = HashVal tag -> fst r = Panic bad_assertion).
Proof.
  intros Hproto Hin Hdec r. subst r.
  rewrite (QuaiProtocolHandler_one_frame pb stream data p Hproto Hin).
  cbn [read_loop]. rewrite Hdec.
  destruct decodedType; cbn; repeat split; intros; congruence.
Qed.

Lemma QuaiProtocolHandler_block_number_request_unanswered_witness :
  let r := QuaiProtocolHandler Fixture.pb (Fixture.inbound "honest" [[5; 3; 42]])
                               Fixture.serving in
  snd r = stream_Close (Fixture.inbound "honest" [[5; 3; 42]]) Fixture.serving /\
  (forall tag, HashPtr (Some 0) = HashPtr tag -> fst r = Done tt) /\
  (forall tag, HashPtr (Some 0) = HashVal tag -> fst r = Panic bad_assertion).
Proof.
  apply (QuaiProtocolHandler_block_number_request_unanswered
           Fixture.pb (Fixture.inbound "honest" [[5; 3; 42]]) [5; 3; 42] Fixture.serving
           5 (HashPtr (Some 0)) Fixture.prime (Some 42)); reflexivity.
Defined.

(** The backend of that node knows number 42: an answer was there to give. *)
Example block_number_request_had_an_answer :
  fst (GetBlockHashByNumber 42 Fixture.prime Fixture.serving) = Done (Some 7) /\
  trace (snd (QuaiProtocolHandler Fixture.pb (Fixture.inbound "honest" [[5; 3; 42]])
                                  Fixture.serving))
  = [EvStreamClose "honest"].
Proof. vm_compute. split; reflexivity. Qed.

(** C5 (the code departs from the claim): when [GetBlock] returns nil,
    [handleBlockRequest] logs "block not found" and goes on to call
    [Hash()] on the nil block: it panics before anything is encoded or
    written. The handler of a stream carrying such a request ends in that
    panic with only the deferred close recorded: no not-found response is
    sent. *)
Theorem handleBlockRequest_absent_block_panics
    (pb : Codec) (id : Z) (loc : Location) (hash : Hash) (stream : Stream) (p : Node) :
  GetBlock hash loc p = (Done None, p) ->
  handleBlockRequest pb id loc hash stream p = (Panic nil_dereference, p) /\
  (forall data tag,
      Protocol stream = ProtocolVersion ->
      incoming stream = [inl data] ->
      DecodeQuaiRequest pb data = inl (id, BlockPtr tag, loc, HashVal hash) ->
      QuaiProtocolHandler pb stream p = (Panic nil_dereference, stream_Close stream p)).
Proof.
  intros Hget.
  assert (Hpanic : handleBlockRequest pb id loc hash stream p = (Panic nil_dereference, p)).
  { unfold handleBlockRequest, bind. rewrite Hget. reflexivity. }
  split; [exact Hpanic |].
  intros data tag Hproto Hin Hdec.
  rewrite (QuaiProtocolHandler_one_frame pb stream data p Hproto Hin).
  cbn [read_loop]. rewrite Hdec.
  cbn -[handleBlockRequest].
  erewrite (bind_run_panic _ _ p); [reflexivity |].
  erewrite (bind_run_done _ _ p) by reflexivity.
  erewrite (bind_run_done _ _ p) by reflexivity.
  apply bind_run_panic. exact Hpanic.
Qed.

Lemma handleBlockRequest_absent_block_panics_witness :
  handleBlockRequest Fixture.pb 5 Fixture.prime 9 (Fixture.inbound "honest" [[5; 0; 9]])
                     Fixture.serving
  = (Panic nil_dereference, Fixture.serving) /\
  (forall data tag,
      Protocol (Fixture.inbound "honest" [[5; 0; 9]]) = ProtocolVersion ->
      incoming (Fixture.inbound "honest" [[5; 0; 9]]) = [inl data] ->
      DecodeQuaiRequest Fixture.pb data = inl (5, BlockPtr tag, Fixture.prime, HashVal 9) ->
      QuaiProtocolHandler Fixture.pb (Fixture.inbound "honest" [[5; 0; 9]]) Fixture.serving
      = (Panic nil_dereference,
         stream_Close (Fixture.inbound "honest" [[5; 0; 9]]) Fixture.serving)).
Proof.
  apply (handleBlockRequest_absent_block_panics
           Fixture.pb 5 Fixture.prime 9 (Fixture.inbound "honest" [[5; 0; 9]])
           Fixture.serving).
  reflexivity.
Defined.

(** A block the backend knows is served, with the request ID; an absent
    one ends the handler in the panic. *)
Example block_request_present_and_absent :
  QuaiProtocolHandler Fixture.pb (Fixture.inbound "honest" [[5; 0; 7]]) Fixture.serving
  = (Done tt, emit (EvStreamClose "honest")
                (emit (EvStreamWrite "honest" [5; 0; 7]) Fixture.serving)) /\
  QuaiProtocolHandler Fixture.pb (Fixture.inbound "honest" [[5; 0; 9]]) Fixture.serving
  = (Panic nil_dereference, emit (EvStreamClose "honest") Fixture.serving).
Proof. split; reflexivity. Qed.

(** ** The validation switch, case by case

    For a by-hash request the switch has three ways out: the payload
    (right kind, right hash), the ban (wrong kind, or right kind and
    another hash), and a nil dereference when the decoded payload is a nil
    pointer of the requested kind, whose [Hash()] cannot be called. *)
Lemma checkResponse_byHash_cases (hash : Hash) (datatype recvdType : value) (q : Node) :
  byHash datatype = true ->
  (kindOf recvdType = kindOf datatype /\ payloadHash recvdType = Some hash /\
   checkResponse (HashVal hash) datatype recvdType q = (Done (Some recvdType), q)) \/
  (rejected (HashVal hash) datatype recvdType /\
   checkResponse (HashVal hash) datatype recvdType q = (Done None, q)) \/
  (kindOf recvdType = kindOf datatype /\ payloadHash recvdType = None /\
   checkResponse (HashVal hash) datatype recvdType q = (Panic nil_dereference, q)).
Proof.
  intros Htag.
  assert (Hdec : kindOf recvdType = kindOf datatype \/ kindOf recvdType <> kindOf datatype)
    by (destruct (kindOf recvdType) as [[] |], (kindOf datatype) as [[] |];
        (left; reflexivity) || (right; discriminate)).
  destruct Hdec as [Hkind | Hkind].
  - destruct (payloadHash recvdType) as [got |] eqn:Hgot.
    + destruct (Z.eq_dec got hash) as [-> | Hne].
      * left. repeat split; try assumption.
        destruct datatype; try discriminate Htag;
          destruct recvdType as [| [rb |] | [rh |] | [rt |] | | | | | |];
          try discriminate Hkind; try discriminate Hgot;
          cbn in Hgot; injection Hgot as Hgot; cbn; unfold bind, ret;
          rewrite Hgot, Z.eqb_refl; reflexivity.
      * right. left.
        assert (Hrej : rejected (HashVal hash) datatype recvdType)
          by (eapply rejected_hash; eauto).
        split; [exact Hrej | now apply checkResponse_rejected].
    + right. right. repeat split; try assumption.
      destruct datatype; try discriminate Htag;
        destruct recvdType as [| [rb |] | [rh |] | [rt |] | | | | | |];
        try discriminate Hkind; try discriminate Hgot; reflexivity.
  - right. left.
    assert (Hrej : rejected (HashVal hash) datatype recvdType)
      by (apply rejected_kind; now left).
    split; [exact Hrej | now apply checkResponse_rejected].
Qed.

(** ** Scenarios, run on the small world *)

(** A valid peer fetch delivers the block and caches it; the same request
    again is served from the cache and opens no stream. *)
Example scenario_peer_fetch_then_cache_hit :
  let run := RequestByHash Fixture.pb Fixture.NewStream (Fixture.PeersForTopic ["honest"])
                           (Fixture.FindProvidersAsync []) Fixture.prime 7 (BlockPtr None) in
  let block := BlockPtr (Some {| block_hash := 7; block_body := [] |}) in
  let r1 := run Fixture.fresh in
  let r2 := run (snd r1) in
  fst r1 = Done [block] /\
  cache (snd r1) !! 7 = Some block /\
  fst r2 = Done [block] /\
  trace (snd r2) = trace (snd r1).
Proof. vm_compute. repeat split. Qed.

(** A peer that answers with another block is banned and nothing is
    delivered or cached. *)
Example scenario_hash_mismatch :
  let r := RequestByHash Fixture.pb Fixture.NewStream (Fixture.PeersForTopic ["liar"])
                         (Fixture.FindProvidersAsync []) Fixture.prime 7 (BlockPtr None)
                         Fixture.fresh in
  fst r = Done [] /\
  cache (snd r) !! 7 = None /\
  trace (snd r)
  = [EvGenerate 0; EvStreamWrite "liar" [0; 0; 7]; EvAdd 0; EvRemove 0;
     EvBanPeer "liar"; EvClosePeer "liar"; EvStreamClose "liar"].
Proof. vm_compute. repeat split. Qed.

(** A by-number request delivers the peer's hash and caches nothing; the
    follow-up by-hash request for that hash goes to the peers. *)
Example scenario_by_number :
  let r1 := RequestByNumber Fixture.pb Fixture.NewStream (Fixture.PeersForTopic ["honest"])
                            (Fixture.FindProvidersAsync []) Fixture.prime (Some 42)
                            (HashPtr None) Fixture.fresh in
  let r2 := RequestByHash Fixture.pb Fixture.NewStream (Fixture.PeersForTopic ["honest"])
                          (Fixture.FindProvidersAsync []) Fixture.prime 42 (BlockPtr None)
                          (snd r1) in
  fst r1 = Done [HashPtr (Some 42)] /\
  cache (snd r1) = ∅ /\
  fst (cacheGet 42 (BlockPtr None) (snd r1)) = Done (Nil, false) /\
  trace (snd r2)
  = trace (snd r1)
    ++ [EvGenerate 1; EvStreamWrite "honest" [1; 0; 42]; EvAdd 1; EvRemove 1;
        EvStreamClose "honest"].
Proof. vm_compute. repeat split. Qed.

(** With no topic peer, a provider found by the DHT in the first round
    answers. *)
Example scenario_dht_fallback :
  fst (RequestByHash Fixture.pb Fixture.NewStream (Fixture.PeersForTopic [])
                     (Fixture.FindProvidersAsync ["honest"]) Fixture.prime 7 (BlockPtr None)
                     Fixture.fresh)
  = Done [BlockPtr (Some {| block_hash := 7; block_body := [] |})].
Proof. vm_compute. reflexivity. Qed.

(** A header fetched from a peer is cached; asking for it again takes the
    fast path and panics on the assertion to a block. *)
Example scenario_header_fetched_twice :
  let run := RequestByHash Fixture.pb Fixture.NewStream (Fixture.PeersForTopic ["honest"])
                           (Fixture.FindProvidersAsync []) Fixture.prime 9 (HeaderPtr None) in
  let r1 := run Fixture.fresh in
  fst r1 = Done [HeaderPtr (Some {| header_hash := 9; header_body := [] |})] /\
  fst (run (snd r1)) = Panic bad_assertion.
Proof. vm_compute. split; reflexivity. Qed.

(** * Further properties *)

(** ** What a computation appends to the trace, and what it keeps *)

Lemma emit_all_nil (p : Node) : emit_all [] p = p.
Proof. destruct p. unfold emit_all. cbn. now rewrite app_nil_r. Qed.

Lemma emit_all_app (t1 t2 : list event) (p : Node) :
  emit_all t2 (emit_all t1 p) = emit_all (t1 ++ t2) p.
Proof. unfold emit_all. cbn. now rewrite app_assoc. Qed.

Lemma emit_emit_all (e : event) (p : Node) : emit e p = emit_all [e] p.
Proof. reflexivity. Qed.

Section Traces.

Context {A : Type} (P : event -> Prop).

Lemma traces_ret (a : A) : traces P (ret a).
Proof. intros p. exists []. cbn. now rewrite app_nil_r. Qed.

Lemma traces_panic (msg : string) : traces P (@panic A msg).
Proof. intros p. exists []. cbn. now rewrite app_nil_r. Qed.

Lemma traces_get (f : Node -> A) : traces P (get f).
Proof. intros p. exists []. cbn. now rewrite app_nil_r. Qed.

Lemma traces_defer (e : event) (body : M A) :
  traces P body -> P e -> traces P (defer (emit e) body).
Proof.
  intros Hbody He p. destruct (Hbody p) as (t & Ht & HP).
  exists (t ++ [e]). unfold defer. destruct (body p) as [r q]. cbn in *.
  rewrite Ht, app_assoc. split; [reflexivity |].
  apply Forall_app. split; [exact HP | now constructor].
Qed.

End Traces.

Lemma traces_log (P : event -> Prop) (msg : string) : traces P (log msg).
Proof. apply traces_ret. Qed.

Lemma traces_bind {A B} (P : event -> Prop) (m : M A) (k : A -> M B) :
  traces P m -> (forall a, traces P (k a)) -> traces P (bind m k).
Proof.
  intros Hm Hk p. destruct (Hm p) as (t1 & Ht1 & HP1).
  unfold bind. destruct (m p) as [[a | msg] q]; cbn in *.
  - destruct (Hk a q) as (t2 & Ht2 & HP2).
    exists (t1 ++ t2). rewrite Ht2, Ht1, app_assoc. split; [reflexivity |].
    apply Forall_app. now split.
  - exists t1. now split.
Qed.

Lemma traces_emit (P : event -> Prop) (e : event) : P e -> traces P (modify (emit e)).
Proof. intros He p. exists [e]. split; [reflexivity | now constructor]. Qed.

Lemma traces_modify (P : event -> Prop) (f : Node -> Node) :
  (forall p, trace (f p) = trace p) -> traces P (modify f).
Proof. intros Hf p. exists []. cbn. now rewrite Hf, app_nil_r. Qed.

Lemma traces_for_each {A B} (P : event -> Prop) (l : list A) (f : A -> M (list B)) :
  (forall a, traces P (f a)) -> traces P (for_each l f).
Proof.
  intros Hf. induction l as [| a l IH]; cbn [for_each].
  - apply traces_ret.
  - apply traces_bind; [apply Hf |]. intros r.
    apply traces_bind; [exact IH |]. intros rs. apply traces_ret.
Qed.

(** As [traces_for_each], knowing where the elements come from. *)
Lemma traces_for_each_In {A B} (P : event -> Prop) (l : list A) (f : A -> M (list B)) :
  (forall a, In a l -> traces P (f a)) -> traces P (for_each l f).
Proof.
  induction l as [| a l IH]; intros Hf; cbn [for_each].
  - apply traces_ret.
  - apply traces_bind; [apply Hf; now left |]. intros r.
    apply traces_bind; [apply IH; intros a' Ha'; apply Hf; now right |].
    intros rs. apply traces_ret.
Qed.

Lemma traces_weaken {A} (P Q : event -> Prop) (m : M A) :
  (forall e, P e -> Q e) -> traces P m -> traces Q m.
Proof.
  intros HPQ Hm p. destruct (Hm p) as (t & Ht & HP).
  exists t. split; [exact Ht |]. eapply Forall_impl; eauto.
Qed.

Lemma traces_GenerateRequestID (P : event -> Prop) :
  (forall id, P (EvGenerate id)) -> traces P GenerateRequestID.
Proof. intros HP p. exists [EvGenerate (nextRequestID p)]. split; [reflexivity | now constructor]. Qed.

Lemma traces_AddRequestID (P : event -> Prop) (id : Z) :
  P (EvAdd id) -> traces P (AddRequestID id).
Proof. intros HP p. exists [EvAdd id]. split; [reflexivity | now constructor]. Qed.

Lemma traces_RemoveRequestID (P : event -> Prop) (id : Z) :
  P (EvRemove id) -> traces P (RemoveRequestID id).
Proof. intros HP p. exists [EvRemove id]. split; [reflexivity | now constructor]. Qed.

Lemma traces_cacheAdd (P : event -> Prop) (hash : Hash) (data : value) :
  traces P (cacheAdd hash data).
Proof. apply traces_modify. reflexivity. Qed.

Lemma traces_WriteMessageToStream (P : event -> Prop) (stream : Stream) (data : bytes) :
  P (EvStreamWrite (RemotePeer stream) data) ->
  traces P (WriteMessageToStream stream data).
Proof.
  intros HP. unfold WriteMessageToStream. destruct (on_write stream data).
  - apply traces_ret.
  - apply traces_bind; [now apply traces_emit | intros; apply traces_ret].
Qed.

Lemma traces_BanPeer (P : event -> Prop) (peer : PeerID) :
  P (EvBanPeer peer) -> P (EvClosePeer peer) -> traces P (BanPeer peer).
Proof.
  intros Hban Hclose. unfold BanPeer.
  apply traces_bind; [apply traces_log | intros _].
  apply traces_bind; [now apply traces_emit | intros _]. now apply traces_emit.
Qed.

(** One step of a proof that a computation only appends events of a
    kind; [side] settles that a given event is of the kind. *)
Ltac traces_step side :=
  match goal with
  | |- traces _ (bind _ _) => apply traces_bind; [| intros ?]
  | |- traces _ (defer (stream_Close _) _) => apply traces_defer; [| side]
  | |- traces _ (ret _) => apply traces_ret
  | |- traces _ (panic _) => apply traces_panic
  | |- traces _ (log _) => apply traces_log
  | |- traces _ (get _) => apply traces_get
  | |- traces _ (cacheGet _ _) => apply traces_get
  | |- traces _ (cacheAdd _ _) => apply traces_cacheAdd
  | |- traces _ GenerateRequestID => apply traces_GenerateRequestID; intros ?; side
  | |- traces _ (AddRequestID _) => apply traces_AddRequestID; side
  | |- traces _ (RemoveRequestID _) => apply traces_RemoveRequestID; side
  | |- traces _ (WriteMessageToStream _ _) => apply traces_WriteMessageToStream; side
  | |- traces _ (BanPeer _) => apply traces_BanPeer; side
  | |- traces _ (modify (emit _)) => apply traces_emit; side
  | |- traces _ (for_each _ _) => apply traces_for_each; intros ?
  | |- traces _ (match ?x with _ => _ end) => destruct x
  | |- traces _ (if ?b then _ else _) => destruct b
  | |- traces _ (let '(_, _) := ?x in _) => destruct x
  end.

Ltac event_side :=
  cbv beta; unfold is_write_to, is_StreamClose;
  first [ solve [intros; discriminate]
        | solve [intros; congruence]
        | solve [eauto]
        | solve [intros [? ?]; discriminate]
        | solve [intros ? [= <-]; eauto]
        | solve [intros ? [= ->]; eauto] ].

Section Preserves.

Context {X : Type} (f : Node -> X).

Lemma preserves_ret {A} (a : A) : preserves f (ret a).
Proof. intros p. reflexivity. Qed.

Lemma preserves_panic {A} (msg : string) : preserves f (@panic A msg).
Proof. intros p. reflexivity. Qed.

Lemma preserves_get {A} (g : Node -> A) : preserves f (get g).
Proof. intros p. reflexivity. Qed.

Lemma preserves_bind {A B} (m : M A) (k : A -> M B) :
  preserves f m -> (forall a, preserves f (k a)) -> preserves f (bind m k).
Proof.
  intros Hm Hk p. unfold bind. specialize (Hm p).
  destruct (m p) as [[a | msg] q]; cbn [snd] in *.
  - now rewrite Hk.
  - exact Hm.
Qed.

Lemma preserves_modify (g : Node -> Node) :
  (forall p, f (g p) = f p) -> preserves f (modify g).
Proof. intros Hg p. apply Hg. Qed.

Lemma preserves_defer {A} (d : Node -> Node) (body : M A) :
  (forall p, f (d p) = f p) -> preserves f body -> preserves f (defer d body).
Proof.
  intros Hd Hbody p. unfold defer. specialize (Hbody p).
  destruct (body p) as [r q]. cbn [snd] in *. now rewrite Hd.
Qed.

Lemma preserves_for_each {A B} (l : list A) (g : A -> M (list B)) :
  (forall a, preserves f (g a)) -> preserves f (for_each l g).
Proof.
  intros Hg. induction l as [| a l IH]; cbn [for_each].
  - apply preserves_ret.
  - apply preserves_bind; [apply Hg |]. intros r.
    apply preserves_bind; [exact IH |]. intros rs. apply preserves_ret.
Qed.

End Preserves.

Ltac preserves_step :=
  match goal with
  | |- preserves _ (bind _ _) => apply preserves_bind; [| intros ?]
  | |- preserves _ (defer _ _) => apply preserves_defer; [intros ?; reflexivity |]
  | |- preserves _ (ret _) => apply preserves_ret
  | |- preserves _ (panic _) => apply preserves_panic
  | |- preserves _ (log _) => apply preserves_ret
  | |- preserves _ (get _) => apply preserves_get
  | |- preserves _ (cacheGet _ _) => apply preserves_get
  | |- preserves _ (modify _) => apply preserves_modify; intros ?; reflexivity
  | |- preserves _ (for_each _ _) => apply preserves_for_each; intros ?
  | |- preserves _ (match ?x with _ => _ end) => destruct x
  | |- preserves _ (if ?b then _ else _) => destruct b
  | |- preserves _ (let '(_, _) := ?x in _) => destruct x
  end.

(** ** The stream protocol handler, beyond one frame *)

Lemma bind_ext {A B} (m : M A) (k k' : A -> M B) (p : Node) :
  (forall a q, k a q = k' a q) -> bind m k p = bind m k' p.
Proof. intros Hk. unfold bind. destruct (m p) as [[a | msg] q]; [apply Hk | reflexivity]. Qed.

Lemma traces_backend (P : event -> Prop) : traces P backend.
Proof.
  intros p. exists []. unfold backend. destruct (consensus p); cbn; now rewrite app_nil_r.
Qed.

Lemma preserves_backend {X} (f : Node -> X) : preserves f backend.
Proof. intros p. unfold backend. now destruct (consensus p). Qed.

Section HandlerFacts.

Variable pb : Codec.

Lemma traces_read_loop (stream : Stream) (reads : list (bytes + error)) :
  traces (is_write_to (RemotePeer stream)) (read_loop pb stream reads).
Proof.
  induction reads as [| [data | [| msg]] rest IH]; cbn [read_loop].
  - apply traces_log.
  - unfold handleBlockRequest, handleHeaderRequest, handleTransactionRequest,
      handleBlockNumberRequest, GetBlock, GetHeader, GetBlockHashByNumber,
      Block_Hash, Header_Hash, assert_Hash, assert_BigInt, assert_BlockPtr.
    repeat first [ exact IH | apply traces_backend | traces_step event_side ].
  - apply traces_log.
  - apply traces_bind; [apply traces_log | intros _; exact IH].
Qed.

Lemma preserves_read_loop (stream : Stream) (reads : list (bytes + error)) :
  preserves node_data (read_loop pb stream reads).
Proof.
  induction reads as [| [data | [| msg]] rest IH]; cbn [read_loop].
  - apply preserves_ret.
  - unfold handleBlockRequest, handleHeaderRequest, handleTransactionRequest,
      handleBlockNumberRequest, GetBlock, GetHeader, GetBlockHashByNumber,
      WriteMessageToStream, Block_Hash, Header_Hash, assert_Hash, assert_BigInt,
      assert_BlockPtr.
    repeat first [ exact IH | apply preserves_backend | preserves_step ].
  - apply preserves_ret.
  - apply preserves_bind; [apply preserves_ret | intros _; exact IH].
Qed.

(** The handler on a stream of the right protocol. *)
Lemma QuaiProtocolHandler_right_protocol (stream : Stream) (p : Node) :
  Protocol stream = ProtocolVersion ->
  QuaiProtocolHandler pb stream p
  = let '(r, q) := (read_loop pb stream (incoming stream) ;;;
                    log "Exiting Quai Protocol Handler") p in
    (r, stream_Close stream q).
Proof. intros Hproto. unfold QuaiProtocolHandler, defer. rewrite Hproto. reflexivity. Qed.

Lemma QuaiProtocolHandler_wrong_protocol (stream : Stream) (p : Node) :
  Protocol stream <> ProtocolVersion ->
  QuaiProtocolHandler pb stream p = (Done tt, stream_Close stream p).
Proof.
  intros Hproto. unfold QuaiProtocolHandler, defer.
  apply String.eqb_neq in Hproto. rewrite Hproto. reflexivity.
Qed.

End HandlerFacts.

(** X1: serving a stream never changes the node's cache, consensus
    backend or request registry, whatever the frames and however the
    handler ends; on the trace it only adds writes to the stream's remote
    peer, followed by exactly one close of the stream. A stream negotiated
    under another protocol is closed with nothing read or written. *)
Theorem QuaiProtocolHandler_only_writes_and_closes
    (pb : Codec) (stream : Stream) (p : Node) :
  let r := QuaiProtocolHandler pb stream p in
  node_data (snd r) = node_data p /\
  (exists writes,
      trace (snd r) = trace p ++ writes ++ [EvStreamClose (RemotePeer stream)] /\
      Forall (is_write_to (RemotePeer stream)) writes) /\
  (Protocol stream <> ProtocolVersion -> r = (Done tt, stream_Close stream p)).
Proof.
  intros r. subst r. split; [| split].
  - destruct (string_dec (Protocol stream) ProtocolVersion) as [Hproto | Hproto].
    + rewrite (QuaiProtocolHandler_right_protocol pb stream p Hproto).
      pose proof (preserves_bind node_data (read_loop pb stream (incoming stream))
                    (fun _ => log "Exiting Quai Protocol Handler")
                    (preserves_read_loop pb stream (incoming stream))
                    (fun _ => preserves_ret node_data tt) p) as Hkeep.
      destruct ((read_loop pb stream (incoming stream) ;;;
                 log "Exiting Quai Protocol Handler") p) as [o q].
      exact Hkeep.
    + now rewrite (QuaiProtocolHandler_wrong_protocol pb stream p Hproto).
  - destruct (string_dec (Protocol stream) ProtocolVersion) as [Hproto | Hproto].
    + rewrite (QuaiProtocolHandler_right_protocol pb stream p Hproto).
      pose proof (traces_bind (is_write_to (RemotePeer stream))
                    (read_loop pb stream (incoming stream))
                    (fun _ => log "Exiting Quai Protocol Handler")
                    (traces_read_loop pb stream (incoming stream))
                    (fun _ => traces_log _ _) p) as (writes & Htrace & Hwrites).
      destruct ((read_loop pb stream (incoming stream) ;;;
                 log "Exiting Quai Protocol Handler") p) as [o q].
      exists writes. cbn in *. rewrite Htrace, app_assoc. now split.
    + rewrite (QuaiProtocolHandler_wrong_protocol pb stream p Hproto).
      exists []. split; [reflexivity | constructor].
  - apply QuaiProtocolHandler_wrong_protocol.
Qed.

Lemma QuaiProtocolHandler_only_writes_and_closes_witness :
  QuaiProtocolHandler Fixture.pb
    {| Protocol := "/quai/0.9.0"; RemotePeer := "honest"; on_write := fun _ => None;
       reply := fun _ => inr EOF; incoming := [inl [5; 0; 7]] |}
    Fixture.serving
  = (Done tt, emit (EvStreamClose "honest") Fixture.serving).
Proof.
  apply (proj2 (proj2 (QuaiProtocolHandler_only_writes_and_closes Fixture.pb
           {| Protocol := "/quai/0.9.0"; RemotePeer := "honest"; on_write := fun _ => None;
              reply := fun _ => inr EOF; incoming := [inl [5; 0; 7]] |}
           Fixture.serving))).
  discriminate.
Defined.

(** X2: the read loop acts only on the frames that reach a case of its
    dispatch. Failed reads, frames that do not decode and frames whose tag
    has no case are skipped without effect, and nothing after the first
    [io.EOF] is looked at: the loop behaves on any sequence of reads as on
    its dispatched frames alone. *)
Theorem read_loop_skips_to_dispatched_frames
    (pb : Codec) (stream : Stream) (reads : list (bytes + error)) (p : Node) :
  read_loop pb stream reads p
  = read_loop pb stream (map inl (dispatched_frames pb reads)) p.
Proof.
  revert p. induction reads as [| [data | [| msg]] rest IH]; intros p;
    cbn [read_loop dispatched_frames map].
  - reflexivity.
  - destruct (DecodeQuaiRequest pb data) as [[[[id decodedType] loc] query] | err] eqn:Hdec.
    + destruct (hasCase decodedType) eqn:Hcase.
      * cbn [map read_loop]. rewrite Hdec.
        apply bind_ext. intros _ q.
        destruct decodedType; try discriminate Hcase;
          (apply bind_ext; intros ? ?; apply bind_ext; intros ? ?;
           apply bind_ext; intros ? ?; apply IH).
      * destruct decodedType; try discriminate Hcase;
          (destruct query; cbn; apply IH).
    + cbn. apply IH.
  - reflexivity.
  - cbn. apply IH.
Qed.

(** On the small world: a failed read, a malformed frame and a frame after
    the end of the stream leave only the block request to be served. *)
Example read_loop_skips_noise :
  dispatched_frames Fixture.pb
    [inr (Err "reset"); inl [1; 2]; inl [5; 0; 7]; inr EOF; inl [6; 0; 7]]
  = [[5; 0; 7]] /\
  read_loop Fixture.pb (Fixture.inbound "honest" [])
    [inr (Err "reset"); inl [1; 2]; inl [5; 0; 7]; inr EOF; inl [6; 0; 7]] Fixture.serving
  = (Done tt, emit (EvStreamWrite "honest" [5; 0; 7]) Fixture.serving).
Proof. split; reflexivity. Qed.

(** [GetBlock] reads the cache and the backend and nothing else, and
    changes nothing. *)
Lemma GetBlock_run (hash : Hash) (location : Location) (p : Node) :
  GetBlock hash location p = (fst (GetBlock hash location p), p).
Proof.
  unfold GetBlock, bind, cacheGet, get, backend, assert_BlockPtr, ret, panic.
  destruct (cache p !! hash) as [v |]; cbn.
  - destruct (kindOf v) as [[] |]; cbn; try (destruct (consensus p); reflexivity);
      destruct v; try discriminate; reflexivity.
  - destruct (consensus p); reflexivity.
Qed.

Lemma GetBlock_emit_all (hash : Hash) (location : Location) (t : list event) (p : Node) :
  fst (GetBlock hash location (emit_all t p)) = fst (GetBlock hash location p).
Proof.
  unfold GetBlock, bind, cacheGet, get, backend, assert_BlockPtr, ret, panic.
  cbn [cache consensus emit_all].
  destruct (cache p !! hash) as [v |]; cbn.
  - destruct (kindOf v) as [[] |]; cbn; try (destruct (consensus p); reflexivity);
      destruct v; try discriminate; reflexivity.
  - destruct (consensus p); reflexivity.
Qed.

Section Served.

Variable pb : Codec.
Variable stream : Stream.

Lemma block_request_served_emit_all (t : list event) (p : Node) (frame response : bytes) :
  block_request_served pb stream p frame response ->
  block_request_served pb stream (emit_all t p) frame response.
Proof.
  intros (id & tag & loc & hash & block & Hdec & Hget & Henc & Hwrite).
  exists id, tag, loc, hash, block. now rewrite GetBlock_emit_all.
Qed.

Lemma handleBlockRequest_serves (id : Z) (loc : Location) (hash : Hash) (p : Node)
    (block : Block) (response : bytes) :
  fst (GetBlock hash loc p) = Done (Some block) ->
  EncodeQuaiResponse pb id (BlockPtr (Some block)) = inl response ->
  on_write stream response = None ->
  handleBlockRequest pb id loc hash stream p
  = (Done None, emit_all [EvStreamWrite (RemotePeer stream) response] p).
Proof.
  intros Hget Henc Hwrite. unfold handleBlockRequest.
  erewrite bind_run_done by (rewrite GetBlock_run, Hget; reflexivity).
  cbn. unfold bind, WriteMessageToStream. cbn. rewrite Henc, Hwrite. reflexivity.
Qed.

Lemma read_loop_serves (frames responses : list bytes) :
  forall p,
    Forall2 (block_request_served pb stream p) frames responses ->
    read_loop pb stream (map inl frames) p
    = (Done tt, emit_all (map (EvStreamWrite (RemotePeer stream)) responses) p).
Proof.
  revert responses. induction frames as [| frame frames IH]; intros responses p Hall.
  - inversion Hall; subst. cbn. now rewrite emit_all_nil.
  - inversion Hall as [| ? response ? responses' Hserved Hrest]; subst.
    destruct Hserved as (id & tag & loc & hash & block & Hdec & Hget & Henc & Hwrite).
    cbn [map read_loop]. rewrite Hdec.
    erewrite bind_run_done by reflexivity.
    erewrite bind_run_done by reflexivity.
    erewrite bind_run_done by (eapply handleBlockRequest_serves; eassumption).
    erewrite bind_run_done by reflexivity.
    rewrite IH with (responses := responses').
    + now rewrite emit_all_app.
    + eapply Forall2_impl; [exact Hrest |].
      intros f r. apply block_request_served_emit_all.
Qed.

End Served.

(** X3: one stream serves any number of block requests. When every frame
    of the stream asks for a block the node has (in its cache or through
    its backend), the handler writes one response per request, in the
    order of the requests, each the encoding of the block under the ID of
    its request; then it closes the stream and returns. *)
Theorem QuaiProtocolHandler_serves_block_requests_in_order
    (pb : Codec) (stream : Stream) (p : Node) (frames responses : list bytes) :
  Protocol stream = ProtocolVersion ->
  incoming stream = map inl frames ->
  Forall2 (block_request_served pb stream p) frames responses ->
  QuaiProtocolHandler pb stream p
  = (Done tt,
     emit_all (map (EvStreamWrite (RemotePeer stream)) responses
               ++ [EvStreamClose (RemotePeer stream)]) p).
Proof.
  intros Hproto Hin Hall.
  rewrite (QuaiProtocolHandler_right_protocol pb stream p Hproto), Hin.
  erewrite bind_run_done by (apply read_loop_serves; exact Hall).
  cbn. unfold stream_Close. now rewrite emit_emit_all, emit_all_app.
Qed.

Lemma QuaiProtocolHandler_serves_block_requests_in_order_witness :
  let cached := {| block_hash := 9; block_body := [4] |} in
  let p := set_cache {[ 9 := BlockPtr (Some cached) ]} Fixture.serving in
  let stream := Fixture.inbound "honest" [[5; 0; 7]; [6; 0; 9]; [8; 0; 7]] in
  QuaiProtocolHandler Fixture.pb stream p
  = (Done tt,
     emit_all [EvStreamWrite "honest" [5; 0; 7]; EvStreamWrite "honest" [6; 0; 9];
               EvStreamWrite "honest" [8; 0; 7]; EvStreamClose "honest"] p).
Proof.
  intros cached p stream.
  apply (QuaiProtocolHandler_serves_block_requests_in_order Fixture.pb stream p
           [[5; 0; 7]; [6; 0; 9]; [8; 0; 7]] [[5; 0; 7]; [6; 0; 9]; [8; 0; 7]]);
    try reflexivity.
  repeat constructor.
  - exists 5, (Some emptyBlock), Fixture.prime, 7, {| block_hash := 7; block_body := [1; 2] |}.
    repeat split.
  - exists 6, (Some emptyBlock), Fixture.prime, 9, cached. repeat split.
  - exists 8, (Some emptyBlock), Fixture.prime, 7, {| block_hash := 7; block_body := [1; 2] |}.
    repeat split.
Defined.

(** X4: a Header or a Transaction request is never answered. As soon as
    the read loop dispatches one, the handler ends in the panic
    "TODO: implement" (of [GetHeader], of [handleTransactionRequest]);
    nothing is written for it and the frames behind it are never read. *)
Theorem QuaiProtocolHandler_header_and_transaction_requests_panic
    (pb : Codec) (stream : Stream) (p : Node) (data : bytes) (rest : list (bytes + error))
    (id : Z) (decodedType : value) (loc : Location) (hash : Hash) :
  Protocol stream = ProtocolVersion ->
  incoming stream = inl data :: rest ->
  DecodeQuaiRequest pb data = inl (id, decodedType, loc, HashVal hash) ->
  kindOf decodedType = Some TagHeader \/ kindOf decodedType = Some TagTransaction ->
  QuaiProtocolHandler pb stream p = (Panic "TODO: implement", stream_Close stream p).
Proof.
  intros Hproto Hin Hdec Hkind.
  rewrite (QuaiProtocolHandler_right_protocol pb stream p Hproto), Hin.
  cbn [read_loop]. rewrite Hdec.
  destruct decodedType; destruct Hkind as [Hk | Hk]; try discriminate Hk; reflexivity.
Qed.

Lemma QuaiProtocolHandler_header_and_transaction_requests_panic_witness :
  QuaiProtocolHandler Fixture.pb (Fixture.inbound "honest" [[5; 1; 7]; [6; 0; 7]])
                      Fixture.serving
  = (Panic "TODO: implement",
     stream_Close (Fixture.inbound "honest" [[5; 1; 7]; [6; 0; 7]]) Fixture.serving).
Proof.
  apply (QuaiProtocolHandler_header_and_transaction_requests_panic
           Fixture.pb (Fixture.inbound "honest" [[5; 1; 7]; [6; 0; 7]]) Fixture.serving
           [5; 1; 7] [inl [6; 0; 7]] 5
           (HeaderPtr (Some {| header_hash := 0; header_body := [] |})) Fixture.prime 7);
    try reflexivity.
  left. reflexivity.
Defined.

(** X5: a request whose selector does not fit its tag is not skipped: the
    dispatch asserts the selector's type before it calls the handler, so a
    Block, Header or Transaction tag with anything but a [common.Hash]
    selector, and a [common.Hash] tag with anything but a [big.Int],
    panic on the assertion. The stream is closed by the deferred call and
    nothing is written. *)
Theorem QuaiProtocolHandler_ill_typed_selector_panics
    (pb : Codec) (stream : Stream) (p : Node) (data : bytes) (rest : list (bytes + error))
    (id : Z) (decodedType : value) (loc : Location) (query : value) :
  Protocol stream = ProtocolVersion ->
  incoming stream = inl data :: rest ->
  DecodeQuaiRequest pb data = inl (id, decodedType, loc, query) ->
  (byHash decodedType = true /\ forall h, query <> HashVal h) \/
  ((exists h, decodedType = HashVal h) /\ forall n, query <> BigIntVal n) ->
  QuaiProtocolHandler pb stream p = (Panic bad_assertion, stream_Close stream p).
Proof.
  intros Hproto Hin Hdec Hill.
  rewrite (QuaiProtocolHandler_right_protocol pb stream p Hproto), Hin.
  cbn [read_loop]. rewrite Hdec.
  destruct Hill as [[Htag Hq] | [[h ->] Hq]].
  - destruct decodedType; try discriminate Htag;
      (destruct query as [| | | | want | | | | |]; try reflexivity; now destruct (Hq want)).
  - destruct query as [| | | | | | | number | |]; try reflexivity. now destruct (Hq number).
Qed.

Lemma QuaiProtocolHandler_ill_typed_selector_panics_witness :
  let pb' := {| EncodeQuaiRequest := EncodeQuaiRequest Fixture.pb;
                DecodeQuaiRequest := fun data =>
                  match data with
                  | [id; n] => inl (id, BlockPtr (Some emptyBlock), Fixture.prime,
                                    BigIntPtr (Some n))
                  | _ => DecodeQuaiRequest Fixture.pb data
                  end;
                EncodeQuaiResponse := EncodeQuaiResponse Fixture.pb;
                DecodeQuaiResponse := DecodeQuaiResponse Fixture.pb |} in
  QuaiProtocolHandler pb' (Fixture.inbound "honest" [[5; 42]; [6; 0; 7]]) Fixture.serving
  = (Panic bad_assertion,
     stream_Close (Fixture.inbound "honest" [[5; 42]; [6; 0; 7]]) Fixture.serving).
Proof.
  intros pb'.
  apply (QuaiProtocolHandler_ill_typed_selector_panics
           pb' (Fixture.inbound "honest" [[5; 42]; [6; 0; 7]]) Fixture.serving
           [5; 42] [inl [6; 0; 7]] 5 (BlockPtr (Some emptyBlock)) Fixture.prime
           (BigIntPtr (Some 42)));
    try reflexivity.
  left. split; [reflexivity | discriminate].
Defined.

(** ** The peer requester, path by path *)

Lemma checkResponse_run (data datatype recvdType : value) (q : Node) :
  checkResponse data datatype recvdType q
  = (fst (checkResponse data datatype recvdType q), q).
Proof.
  unfold checkResponse, Block_Hash, Header_Hash, Transaction_Hash, assert_Hash,
    bind, ret, panic, log.
  destruct datatype; try reflexivity;
    destruct recvdType as [| [rb |] | [rh |] | [rt |] | | | | | |]; try reflexivity;
    destruct data; try reflexivity;
    match goal with |- context [?a =? ?b] => destruct (a =? b) end; reflexivity.
Qed.

Section RequesterPaths.

Variable pb : Codec.
Variable NewStream : PeerID -> Stream + error.

Lemma traces_checkResponse (P : event -> Prop) (data datatype recvdType : value) :
  traces P (checkResponse data datatype recvdType).
Proof.
  intros q. exists []. rewrite checkResponse_run. cbn. now rewrite app_nil_r.
Qed.

Lemma preserves_checkResponse {X} (f : Node -> X) (data datatype recvdType : value) :
  preserves f (checkResponse data datatype recvdType).
Proof. intros q. now rewrite checkResponse_run. Qed.

(** What [requestFromPeer] appends to the trace, whoever the peer: IDs of
    the registry, one write, a ban of this peer, closes. *)
Lemma traces_requestFromPeer (P : event -> Prop) peerID location data datatype :
  (forall id, P (EvGenerate id)) -> (forall id, P (EvAdd id)) -> (forall id, P (EvRemove id)) ->
  (forall peer bytes, P (EvStreamWrite peer bytes)) ->
  (forall peer, P (EvStreamClose peer)) ->
  P (EvBanPeer peerID) -> P (EvClosePeer peerID) ->
  traces P (requestFromPeer pb NewStream peerID location data datatype).
Proof.
  intros Hgen Hadd Hrem Hwrite Hclose Hban Hclosepeer.
  unfold requestFromPeer, validateOrBan, stream_Close.
  repeat first [ apply traces_checkResponse
               | traces_step ltac:(first [ apply Hgen | apply Hadd | apply Hrem | apply Hwrite
                                         | apply Hclose | exact Hban | exact Hclosepeer ])
               | apply traces_defer; [| apply Hclose] ].
Qed.

End RequesterPaths.

(** X6: [requestFromPeer] closes the stream it opened exactly once, as the
    last thing it does, on every path: success, failed encode, write, read
    or decode, rejected response, and both panics. When the stream cannot
    be opened the error is returned and the node is untouched: no request
    ID is drawn. *)
Theorem requestFromPeer_closes_its_stream_once
    (pb : Codec) (NewStream : PeerID -> Stream + error)
    (peerID : PeerID) (location : Location) (data datatype : value) (p : Node) :
  let r := requestFromPeer pb NewStream peerID location data datatype p in
  (forall err, NewStream peerID = inr err -> r = (Done (Nil, Some err), p)) /\
  (forall stream, NewStream peerID = inl stream ->
     exists t,
       trace (snd r) = trace p ++ t ++ [EvStreamClose (RemotePeer stream)] /\
       Forall (fun e => ~ is_StreamClose e) t).
Proof.
  intros r. subst r. split.
  - intros err Hopen. unfold requestFromPeer. now rewrite Hopen.
  - intros stream Hopen. unfold requestFromPeer. rewrite Hopen.
    match goal with
    | |- context [defer _ ?body] =>
        assert (Hbody : traces (fun e => ~ is_StreamClose e) body)
    end.
    { unfold validateOrBan.
      repeat first [ apply traces_checkResponse | traces_step event_side ]. }
    destruct (Hbody p) as (t & Ht & Hno). exists t. split; [| exact Hno].
    unfold defer.
    match goal with |- context [let '(_, _) := ?b p in _] => destruct (b p) as [o q] end.
    cbn in *. now rewrite Ht, app_assoc.
Qed.

Lemma requestFromPeer_closes_its_stream_once_witness :
  requestFromPeer Fixture.pb Fixture.NewStream "nobody" Fixture.prime (HashVal 7)
                  (BlockPtr None) Fixture.fresh
  = (Done (Nil, Some (Err "failed to dial")), Fixture.fresh) /\
  exists t,
    trace (snd (requestFromPeer Fixture.pb Fixture.NewStream "mute" Fixture.prime
                                (HashVal 7) (BlockPtr None) Fixture.fresh))
    = trace Fixture.fresh ++ t ++ [EvStreamClose "mute"] /\
    Forall (fun e => ~ is_StreamClose e) t.
Proof.
  split.
  - apply (proj1 (requestFromPeer_closes_its_stream_once Fixture.pb Fixture.NewStream
                    "nobody" Fixture.prime (HashVal 7) (BlockPtr None) Fixture.fresh)).
    reflexivity.
  - apply (proj2 (requestFromPeer_closes_its_stream_once Fixture.pb Fixture.NewStream
                    "mute" Fixture.prime (HashVal 7) (BlockPtr None) Fixture.fresh)
             {| Protocol := ProtocolVersion; RemotePeer := "mute";
                on_write := fun _ => Some (Err "stream reset");
                reply := fun _ => inr (Err "stream reset"); incoming := [] |}).
    reflexivity.
Defined.



(** X8: [requestFromPeer] bans no one but the peer it was sent to, and
    only for a response that failed validation: whenever a ban is on the
    trace of an attempt, the attempt returned the error "invalid response",
    the request ID had been removed from the registry, and the connection
    to the peer was closed as well. A stream that cannot be opened, a
    failed write or read and a frame that does not decode never lead to a
    ban. *)
Theorem requestFromPeer_bans_only_invalid_responses
    (pb : Codec) (NewStream : PeerID -> Stream + error)
    (peerID : PeerID) (location : Location) (data datatype : value) (p : Node) :
  let r := requestFromPeer pb NewStream peerID location data datatype p in
  exists t,
    trace (snd r) = trace p ++ t /\
    forall x, In (EvBanPeer x) t ->
              x = peerID /\
              fst r = Done (Nil, Some invalid_response) /\
              In (EvRemove (nextRequestID p)) t /\
              In (EvClosePeer peerID) t.
Proof.
  intros r. subst r. unfold requestFromPeer.
  destruct (NewStream peerID) as [stream | err].
  2: { exists []. cbn. rewrite app_nil_r. split; [reflexivity | intros x []]. }
  unfold defer, GenerateRequestID, bind, WriteMessageToStream, AddRequestID, RemoveRequestID,
    validateOrBan, BanPeer, modify, ret, log, panic, bind, stream_Close.
  destruct (EncodeQuaiRequest pb _ location data datatype) as [requestBytes | err].
  2: { eexists. cbn. rewrite <- ?app_assoc. split; [reflexivity |].
       intros x Hin. cbn in Hin. intuition discriminate. }
  destruct (on_write stream requestBytes).
  { eexists. cbn. rewrite <- ?app_assoc. split; [reflexivity |].
    intros x Hin. cbn in Hin. intuition discriminate. }
  destruct (reply stream requestBytes) as [responseBytes | err].
  2: { eexists. cbn. rewrite <- ?app_assoc. split; [reflexivity |].
       intros x Hin. cbn in Hin. intuition discriminate. }
  destruct (DecodeQuaiResponse pb responseBytes) as [[recvdID recvdType] | err].
  2: { eexists. cbn. rewrite <- ?app_assoc. split; [reflexivity |].
       intros x Hin. cbn in Hin. intuition discriminate. }
  destruct (negb (recvdID =? nextRequestID p)).
  { eexists. cbn. rewrite <- ?app_assoc. split; [reflexivity |].
    intros x Hin. cbn in Hin. intuition discriminate. }
  rewrite checkResponse_run.
  destruct (fst (checkResponse data datatype recvdType _)) as [[payload |] | msg].
  - eexists. cbn. rewrite <- ?app_assoc. split; [reflexivity |].
    intros x Hin. cbn in Hin. intuition discriminate.
  - eexists. cbn. rewrite <- ?app_assoc. split; [reflexivity |].
    intros x Hin. cbn in Hin.
    assert (Hx : x = peerID) by (intuition (try discriminate; congruence)).
    subst x. cbn. intuition.
  - eexists. cbn. rewrite <- ?app_assoc. split; [reflexivity |].
    intros x Hin. cbn in Hin. intuition discriminate.
Qed.

(** X9: a by-number selector is only served under the BlockHash tag. When
    [requestFromPeer] is given a [*big.Int] with a Block, Header or
    Transaction tag and the peer answers with a payload of that kind, the
    hash check asserts the selector to [common.Hash] and panics: the
    attempt does not return, nothing is delivered and the peer is not
    banned. *)
Theorem requestFromPeer_number_under_hash_tag_panics
    (pb : Codec) (NewStream : PeerID -> Stream + error)
    (peerID : PeerID) (location : Location) (number : option Z) (datatype : value) (p : Node)
    (stream : Stream) (requestBytes : bytes) (recvdType : value) :
  answered pb NewStream peerID location (BigIntPtr number) datatype p stream requestBytes
           (nextRequestID p) recvdType ->
  byHash datatype = true ->
  kindOf recvdType = kindOf datatype ->
  payloadHash recvdType <> None ->
  let r := requestFromPeer pb NewStream peerID location (BigIntPtr number) datatype p in
  fst r = Panic bad_assertion /\
  trace (snd r)
  = trace (sent stream requestBytes p)
    ++ [EvRemove (nextRequestID p); EvStreamClose (RemotePeer stream)].
Proof.
  intros Hans Htag Hkind Hsome r. subst r.
  rewrite (requestFromPeer_answered _ _ _ _ _ _ _ _ _ _ Hans).
  destruct datatype; try discriminate Htag;
    destruct recvdType as [| [rb |] | [rh |] | [rt |] | | | | | |];
    try discriminate Hkind; try (now destruct Hsome);
    cbn; (split; [reflexivity | now rewrite <- !app_assoc]).
Qed.

Lemma requestFromPeer_number_under_hash_tag_panics_witness :
  let pb' := {| EncodeQuaiRequest := fun id loc data datatype =>
                  match datatype, data with
                  | BlockPtr _, BigIntPtr (Some n) => inl [id; 0; n]
                  | _, _ => EncodeQuaiRequest Fixture.pb id loc data datatype
                  end;
                DecodeQuaiRequest := DecodeQuaiRequest Fixture.pb;
                EncodeQuaiResponse := EncodeQuaiResponse Fixture.pb;
                DecodeQuaiResponse := DecodeQuaiResponse Fixture.pb |} in
  let r := requestFromPeer pb' Fixture.NewStream "honest" Fixture.prime
                           (BigIntPtr (Some 42)) (BlockPtr None) Fixture.fresh in
  fst r = Panic bad_assertion /\
  trace (snd r)
  = [EvGenerate 0; EvStreamWrite "honest" [0; 0; 42]; EvAdd 0; EvRemove 0;
     EvStreamClose "honest"].
Proof.
  intros pb'.
  apply (requestFromPeer_number_under_hash_tag_panics
           pb' Fixture.NewStream "honest" Fixture.prime (Some 42) (BlockPtr None)
           Fixture.fresh
           (Fixture.stream_to "honest" (fun req =>
              match req with [id; k; x] => inl [id; k; x] | _ => inr (Err "reset") end))
           [0; 0; 42] (BlockPtr (Some {| block_hash := 42; block_body := [] |}))).
  - repeat split; try reflexivity. exists [0; 0; 42]. split; reflexivity.
  - reflexivity.
  - reflexivity.
  - discriminate.
Defined.

Lemma requestFromPeer_bans_only_invalid_responses_witness :
  exists t,
    trace (snd (requestFromPeer Fixture.pb Fixture.NewStream "liar" Fixture.prime
                                (HashVal 7) (BlockPtr None) Fixture.fresh))
    = trace Fixture.fresh ++ t /\
    forall x, In (EvBanPeer x) t ->
              x = "liar" /\
              fst (requestFromPeer Fixture.pb Fixture.NewStream "liar" Fixture.prime
                                   (HashVal 7) (BlockPtr None) Fixture.fresh)
              = Done (Nil, Some invalid_response) /\
              In (EvRemove 0) t /\
              In (EvClosePeer "liar") t.
Proof.
  exact (requestFromPeer_bans_only_invalid_responses Fixture.pb Fixture.NewStream "liar"
           Fixture.prime (HashVal 7) (BlockPtr None) Fixture.fresh).
Defined.

(** ** The dispatcher and the cache *)

Lemma delivers_ret_nil (I : Node -> Prop) (Q : value -> Prop) : delivers I Q (ret []).
Proof. intros p Hp. split; [exact Hp |]. intros vs [= <-]. constructor. Qed.

Lemma delivers_for_each {A} (I : Node -> Prop) (Q : value -> Prop)
    (l : list A) (f : A -> M (list value)) :
  (forall a, delivers I Q (f a)) -> delivers I Q (for_each l f).
Proof.
  intros Hf. induction l as [| a l IH]; cbn [for_each].
  - apply delivers_ret_nil.
  - intros p Hp. destruct (Hf a p Hp) as [Hq Hvs].
    unfold bind. destruct (f a p) as [[r | msg] q]; cbn [fst snd] in *; [| now split].
    destruct (IH q Hq) as [Hq' Hvs'].
    destruct (for_each l f q) as [[rs | msg] q']; cbn [fst snd] in *; [| now split].
    split; [exact Hq' |]. intros vs [= <-].
    apply Forall_app. split; [now apply Hvs | now apply Hvs'].
Qed.

Lemma delivers_bind_app (I : Node -> Prop) (Q : value -> Prop) (m1 m2 : M (list value)) :
  delivers I Q m1 -> delivers I Q m2 ->
  delivers I Q (a <- m1 ;; b <- m2 ;; ret (a ++ b)).
Proof.
  intros H1 H2 p Hp. destruct (H1 p Hp) as [Hq Hvs].
  unfold bind. destruct (m1 p) as [[a | msg] q]; cbn [fst snd] in *; [| now split].
  destruct (H2 q Hq) as [Hq' Hvs'].
  destruct (m2 q) as [[b | msg] q']; cbn [fst snd] in *; [| now split].
  split; [exact Hq' |]. intros vs [= <-].
  apply Forall_app. split; [now apply Hvs | now apply Hvs'].
Qed.

Lemma cache_consistent_insert (hash : Hash) (v : value) (p : Node) :
  cache_consistent p -> payloadHash v = Some hash ->
  cache_consistent (set_cache (<[hash := v]> (cache p)) p).
Proof.
  intros Hp Hv h v'. cbn [cache set_cache].
  destruct (decide (hash = h)) as [<- | Hne].
  - rewrite lookup_insert_eq. now intros [= <-].
  - rewrite lookup_insert_ne by exact Hne. apply Hp.
Qed.

Lemma cache_consistent_same_cache (p q : Node) :
  cache q = cache p -> cache_consistent p -> cache_consistent q.
Proof. intros Hc Hp h v. rewrite Hc. apply Hp. Qed.


(** A lookup in the cache: a miss, or the entry stored under the hash,
    which is then of the kind asked for. *)
Lemma cacheGet_cases (hash : Hash) (datatype : value) (p : Node) :
  cacheGet hash datatype p = (Done (Nil, false), p) \/
  exists v, cache p !! hash = Some v /\ kindOf v = kindOf datatype /\
            cacheGet hash datatype p = (Done (v, true), p).
Proof.
  unfold cacheGet, get.
  destruct (cache p !! hash) as [v |]; [| now left].
  destruct (kindOf v) as [t |] eqn:Hv; [| now left].
  destruct (kindOf datatype) as [t' |] eqn:Hd; [| now left].
  destruct (TypeTag_eqb t t') eqn:Heq; [| now left].
  right. exists v. repeat split.
  rewrite Hv. f_equal. destruct t, t'; (reflexivity || discriminate).
Qed.

Section DispatcherCache.

Variable pb : Codec.
Variable NewStream : PeerID -> Stream + error.
Variable PeersForTopic : Location -> value -> list PeerID * option error.
Variable FindProvidersAsync : nat -> bytes -> nat -> list PeerID.

(** The dispatchers, with their goroutine bodies and their fan-out
    named. *)
Lemma RequestByHash_unfold (location : Location) (hash : Hash) (datatype : value) :
  RequestByHash pb NewStream PeersForTopic FindProvidersAsync location hash datatype
  = (hit <- cacheGet hash datatype ;;
     if snd hit
     then log "data found in cache" ;;;
          block <- assert_BlockPtr (fst hit) ;; ret [BlockPtr block]
     else
       let '(peers, err) := PeersForTopic location datatype in
       match err with
       | Some _ => log "Error requesting data" ;;; ret []
       | None => fanout FindProvidersAsync location peers
                        (attemptByHash pb NewStream location hash datatype)
       end).
Proof. reflexivity. Qed.

Lemma RequestByNumber_unfold (location : Location) (number : option Z) (datatype : value) :
  RequestByNumber pb NewStream PeersForTopic FindProvidersAsync location number datatype
  = let '(peers, err) := PeersForTopic location datatype in
    match err with
    | Some _ => log "Error requesting data" ;;; ret []
    | None => fanout FindProvidersAsync location peers
                     (attemptByNumber pb NewStream location number datatype)
    end.
Proof. reflexivity. Qed.

Lemma attemptByHash_delivers (location : Location) (hash : Hash) (datatype : value)
    (peer : PeerID) :
  byHash datatype = true ->
  delivers cache_consistent
           (fun v => kindOf v = kindOf datatype /\ payloadHash v = Some hash)
           (attemptByHash pb NewStream location hash datatype peer).
Proof.
  intros Htag p Hp. unfold attemptByHash, bind.
  pose proof (keeps_cache_requestFromPeer pb NewStream peer location (HashVal hash) datatype p)
    as Hcache.
  destruct (requestFromPeer pb NewStream peer location (HashVal hash) datatype p)
    as [[[v [err |]] | msg] q] eqn:Hrun; cbn [fst snd] in *.
  - split; [now apply (cache_consistent_same_cache p) |]. intros vs [= <-]. constructor.
  - apply requestFromPeer_returns_checked in Hrun as (recvdType & q0 & q1 & Hcheck).
    apply checkResponse_byHash_sound in Hcheck as (_ & Hkind & Hhash); [| exact Htag].
    split.
    + cbn. apply cache_consistent_insert; [| exact Hhash].
      now apply (cache_consistent_same_cache p).
    + intros vs [= <-]. now repeat constructor.
  - split; [now apply (cache_consistent_same_cache p) |]. discriminate.
Qed.

Lemma fanout_delivers (I : Node -> Prop) (Q : value -> Prop) (location : Location)
    (peers : list PeerID) (attempt : PeerID -> M (list value)) :
  (forall peer, delivers I Q (attempt peer)) ->
  delivers I Q (fanout FindProvidersAsync location peers attempt).
Proof.
  intros Hattempt. unfold fanout. apply delivers_bind_app.
  - now apply delivers_for_each.
  - apply delivers_for_each. intros retries. now apply delivers_for_each.
Qed.

Lemma RequestByHash_delivers (location : Location) (hash : Hash) (datatype : value) :
  byHash datatype = true ->
  delivers cache_consistent
           (fun v => kindOf v = kindOf datatype /\ payloadHash v = Some hash)
           (RequestByHash pb NewStream PeersForTopic FindProvidersAsync location hash datatype).
Proof.
  intros Htag p Hp. rewrite RequestByHash_unfold.
  assert (Hnet : forall peers,
             delivers cache_consistent
               (fun v => kindOf v = kindOf datatype /\ payloadHash v = Some hash)
               (fanout FindProvidersAsync location peers
                       (attemptByHash pb NewStream location hash datatype))).
  { intros peers. apply fanout_delivers. intros peer. now apply attemptByHash_delivers. }
  assert (Hmiss :
            let m := (let '(peers, err) := PeersForTopic location datatype in
                      match err with
                      | Some _ => log "Error requesting data" ;;; ret []
                      | None => fanout FindProvidersAsync location peers
                                       (attemptByHash pb NewStream location hash datatype)
                      end) in
            cache_consistent (snd (m p)) /\
            forall vs, fst (m p) = Done vs ->
                       Forall (fun v => kindOf v = kindOf datatype /\ payloadHash v = Some hash)
                              vs).
  { destruct (PeersForTopic location datatype) as [peers [err |]]; cbv zeta.
    - split; [exact Hp |]. intros vs [= <-]. constructor.
    - exact (Hnet peers p Hp). }
  destruct (cacheGet_cases hash datatype p) as [Hget | (v & Hlookup & Hkind & Hget)];
    rewrite (bind_run_done _ _ p p _ Hget); cbn [fst snd].
  - exact Hmiss.
  - clear Hmiss Hnet.
    destruct v; (split; [exact Hp | try discriminate]).
    intros vs [= <-]. repeat constructor.
    + exact Hkind.
    + now apply Hp.
Qed.

End DispatcherCache.

Lemma preserves_QuaiProtocolHandler (pb : Codec) (stream : Stream) :
  preserves node_data (QuaiProtocolHandler pb stream).
Proof.
  unfold QuaiProtocolHandler.
  apply preserves_defer; [intros ?; reflexivity |].
  apply preserves_bind; [apply preserves_ret | intros _].
  destruct (negb _); [apply preserves_ret |].
  apply preserves_bind; [apply preserves_read_loop | intros _; apply preserves_ret].
Qed.

(** X10: under a Block, Header or Transaction tag, everything that
    [RequestByHash] delivers is of the kind of the tag and reports the
    requested hash, whether it comes from the cache or from any of the
    peers, provided every cache entry is stored under its own hash. *)
Theorem RequestByHash_delivers_the_requested_hash
    (pb : Codec) (NewStream : PeerID -> Stream + error)
    (PeersForTopic : Location -> value -> list PeerID * option error)
    (FindProvidersAsync : nat -> bytes -> nat -> list PeerID)
    (location : Location) (hash : Hash) (datatype : value) (p : Node) (vs : list value) :
  byHash datatype = true ->
  cache_consistent p ->
  fst (RequestByHash pb NewStream PeersForTopic FindProvidersAsync location hash datatype p)
  = Done vs ->
  Forall (fun v => kindOf v = kindOf datatype /\ payloadHash v = Some hash) vs.
Proof.
  intros Htag Hp Hrun.
  exact (proj2 (RequestByHash_delivers pb NewStream PeersForTopic FindProvidersAsync
                  location hash datatype Htag p Hp) vs Hrun).
Qed.

Lemma RequestByHash_delivers_the_requested_hash_witness :
  Forall (fun v => kindOf v = Some TagBlock /\ payloadHash v = Some 7)
         [BlockPtr (Some {| block_hash := 7; block_body := [] |});
          BlockPtr (Some {| block_hash := 7; block_body := [] |})].
Proof.
  apply (RequestByHash_delivers_the_requested_hash
           Fixture.pb Fixture.NewStream (Fixture.PeersForTopic ["liar"; "honest"; "silent"])
           (Fixture.FindProvidersAsync ["honest"]) Fixture.prime 7 (BlockPtr None)
           Fixture.fresh).
  - reflexivity.
  - intros h v Hlookup. discriminate Hlookup.
  - vm_compute. reflexivity.
Defined.

(** X11: that every cache entry is stored under the hash of its payload
    is an invariant of the node: a broadcast, a by-hash request under a
    Block, Header or Transaction tag, a by-number request, a single peer
    request and the serving of an inbound stream all keep it, however they
    end. *)
Theorem cache_consistent_is_invariant
    (pb : Codec) (NewStream : PeerID -> Stream + error)
    (PeersForTopic : Location -> value -> list PeerID * option error)
    (FindProvidersAsync : nat -> bytes -> nat -> list PeerID) (p : Node) :
  cache_consistent p ->
  (forall sourcePeer data location,
      cache_consistent (snd (handleBroadcast sourcePeer data location p))) /\
  (forall location hash datatype,
      byHash datatype = true ->
      cache_consistent
        (snd (RequestByHash pb NewStream PeersForTopic FindProvidersAsync
                            location hash datatype p))) /\
  (forall location number datatype,
      cache_consistent
        (snd (RequestByNumber pb NewStream PeersForTopic FindProvidersAsync
                              location number datatype p))) /\
  (forall peerID location data datatype,
      cache_consistent (snd (requestFromPeer pb NewStream peerID location data datatype p))) /\
  (forall stream, cache_consistent (snd (QuaiProtocolHandler pb stream p))).
Proof.
  intros Hp. repeat split.
  - intros sourcePeer data location. unfold handleBroadcast.
    destruct data; try exact Hp.
    unfold bind, cacheAdd, modify, get. cbn.
    destruct (consensus p); cbn;
      [apply (cache_consistent_same_cache
                (set_cache (<[block_hash b := BlockPtr (Some b)]> (cache p)) p));
       [reflexivity |] |];
      now apply cache_consistent_insert.
  - intros location hash datatype Htag.
    exact (proj1 (RequestByHash_delivers pb NewStream PeersForTopic FindProvidersAsync
                    location hash datatype Htag p Hp)).
  - intros location number datatype.
    apply (cache_consistent_same_cache p); [| exact Hp].
    apply keeps_cache_RequestByNumber.
  - intros peerID location data datatype.
    apply (cache_consistent_same_cache p); [| exact Hp].
    apply keeps_cache_requestFromPeer.
  - intros stream.
    apply (cache_consistent_same_cache p); [| exact Hp].
    pose proof (preserves_QuaiProtocolHandler pb stream p) as Hkeep.
    unfold node_data in Hkeep. congruence.
Qed.

Lemma cache_consistent_is_invariant_witness :
  cache_consistent
    (snd (RequestByHash Fixture.pb Fixture.NewStream (Fixture.PeersForTopic ["honest"])
                        (Fixture.FindProvidersAsync []) Fixture.prime 7 (BlockPtr None)
                        Fixture.fresh)).
Proof.
  refine (proj1 (proj2 (cache_consistent_is_invariant
                          Fixture.pb Fixture.NewStream (Fixture.PeersForTopic ["honest"])
                          (Fixture.FindProvidersAsync []) Fixture.fresh _))
            Fixture.prime 7 (BlockPtr None) eq_refl).
  intros h v Hlookup. discriminate Hlookup.
Defined.

(** ** What a delivery leaves in the cache *)



Section Populates.

Variable pb : Codec.
Variable NewStream : PeerID -> Stream + error.
Variable PeersForTopic : Location -> value -> list PeerID * option error.
Variable FindProvidersAsync : nat -> bytes -> nat -> list PeerID.
Variable location : Location.
Variable hash : Hash.
Variable datatype : value.






End Populates.




(** X13: an error of the pubsub engine ends the search at once. When
    [PeersForTopic] fails, [RequestByNumber], and [RequestByHash] after a
    cache miss, deliver nothing and leave the node untouched: no stream is
    opened, no request ID is drawn, and the DHT providers are never asked,
    whatever the DHT would have returned. *)
Theorem dispatchers_give_up_when_PeersForTopic_fails
    (pb : Codec) (NewStream : PeerID -> Stream + error)
    (PeersForTopic : Location -> value -> list PeerID * option error)
    (FindProvidersAsync : nat -> bytes -> nat -> list PeerID)
    (location : Location) (datatype : value) (p : Node) (err : error) :
  snd (PeersForTopic location datatype) = Some err ->
  (forall number,
      RequestByNumber pb NewStream PeersForTopic FindProvidersAsync location number datatype p
      = (Done [], p)) /\
  (forall hash,
      cacheGet hash datatype p = (Done (Nil, false), p) ->
      RequestByHash pb NewStream PeersForTopic FindProvidersAsync location hash datatype p
      = (Done [], p)).
Proof.
  intros Herr. split.
  - intros number. rewrite RequestByNumber_unfold.
    destruct (PeersForTopic location datatype) as [peers o]. cbn in Herr. now subst o.
  - intros hash Hmiss.
    rewrite RequestByHash_unfold, (bind_run_done _ _ p p _ Hmiss). cbn [fst snd].
    destruct (PeersForTopic location datatype) as [peers o]. cbn in Herr. now subst o.
Qed.

Lemma dispatchers_give_up_when_PeersForTopic_fails_witness :
  let down := fun (_ : Location) (_ : value) =>
                (["honest"], Some (Err "no topic")) : list PeerID * option error in
  RequestByHash Fixture.pb Fixture.NewStream down (Fixture.FindProvidersAsync ["honest"])
                Fixture.prime 7 (BlockPtr None) Fixture.fresh
  = (Done [], Fixture.fresh).
Proof.
  intros down.
  apply (proj2 (dispatchers_give_up_when_PeersForTopic_fails
                  Fixture.pb Fixture.NewStream down (Fixture.FindProvidersAsync ["honest"])
                  Fixture.prime (BlockPtr None) Fixture.fresh (Err "no topic") eq_refl)).
  reflexivity.
Defined.

(** ** The node facade, composed *)

(** X14: a block received by broadcast is served from then on without the
    backend. After [handleBroadcast] of a block, on a node with or without
    a consensus backend, [GetBlock] for the block's hash returns that
    block at any location, and [RequestByHash] for that hash under the
    Block tag delivers exactly that block from the cache: the node is not
    changed and no peer is contacted. *)
Theorem broadcast_block_is_served_from_cache
    (pb : Codec) (NewStream : PeerID -> Stream + error)
    (PeersForTopic : Location -> value -> list PeerID * option error)
    (FindProvidersAsync : nat -> bytes -> nat -> list PeerID)
    (sourcePeer : PeerID) (block : Block) (nodeLocation : Location) (p : Node) :
  let q := snd (handleBroadcast sourcePeer (BlockVal block) nodeLocation p) in
  (forall location, GetBlock (block_hash block) location q = (Done (Some block), q)) /\
  (forall location tag,
      RequestByHash pb NewStream PeersForTopic FindProvidersAsync location
                    (block_hash block) (BlockPtr tag) q
      = (Done [BlockPtr (Some block)], q)).
Proof.
  intros q.
  assert (Hlookup : cache q !! block_hash block = Some (BlockPtr (Some block))).
  { subst q. unfold handleBroadcast, bind, cacheAdd, modify, get. cbn.
    destruct (consensus p); cbn; apply lookup_insert_eq. }
  split.
  - intros location. unfold GetBlock, bind, cacheGet, get. now rewrite Hlookup.
  - intros location tag. unfold RequestByHash, bind, cacheGet, get. now rewrite Hlookup.
Qed.

(** X15: the facade's lookups. [GetBlock] never changes the node; when the
    cache holds a block pointer under the hash it is returned, even a nil
    one, and the backend is not asked; when the cache holds nothing under
    the hash, or a payload of another kind, the backend's [LookupBlock]
    decides; and with no backend set that case is a nil dereference.
    [GetBlockHashByNumber] never reads the cache: it is the backend's
    [LookupBlockHashByNumber], or a nil dereference with no backend. *)
Theorem facade_lookups
    (hash : Hash) (number : Z) (location : Location) (p : Node) :
  snd (GetBlock hash location p) = p /\
  (forall b, cache p !! hash = Some (BlockPtr b) ->
             fst (GetBlock hash location p) = Done b) /\
  ((forall b, cache p !! hash <> Some (BlockPtr b)) ->
   fst (GetBlock hash location p)
   = match consensus p with
     | Some be => Done (LookupBlock be hash location)
     | None => Panic nil_dereference
     end) /\
  GetBlockHashByNumber number location p
  = (match consensus p with
     | Some be => Done (LookupBlockHashByNumber be number location)
     | None => Panic nil_dereference
     end, p).
Proof.
  split; [| split; [| split]].
  - now rewrite GetBlock_run.
  - intros b Hhit. unfold GetBlock, bind, cacheGet, get. now rewrite Hhit.
  - intros Hnot. unfold GetBlock, bind, cacheGet, get, backend.
    destruct (cache p !! hash) as [v |] eqn:Hlookup; cbn.
    + destruct v; cbn; try (destruct (consensus p); reflexivity).
      now destruct (Hnot b).
    + destruct (consensus p); reflexivity.
  - unfold GetBlockHashByNumber, bind, backend. destruct (consensus p); reflexivity.
Qed.

Lemma facade_lookups_witness :
  let header := HeaderPtr (Some {| header_hash := 7; header_body := [] |}) in
  let p := set_cache {[ 7 := header; 9 := BlockPtr None ]} Fixture.serving in
  fst (GetBlock 9 Fixture.prime p) = Done None /\
  fst (GetBlock 7 Fixture.prime p)
  = Done (Some {| block_hash := 7; block_body := [1; 2] |}) /\
  fst (GetBlock 7 Fixture.prime (set_consensus None p)) = Panic nil_dereference.
Proof.
  intros header p. split; [| split].
  - apply (proj1 (proj2 (facade_lookups 9 0 Fixture.prime p)) None). reflexivity.
  - rewrite (proj1 (proj2 (proj2 (facade_lookups 7 0 Fixture.prime p)))); [reflexivity |].
    intros b. vm_compute. discriminate.
  - rewrite (proj1 (proj2 (proj2 (facade_lookups 7 0 Fixture.prime (set_consensus None p)))));
      [reflexivity |].
    intros b. vm_compute. discriminate.
Defined.

(** ** Content identifiers are as distinct as names *)

Lemma locationToCid_inj_witness :
  locationToCid {| Name := "cyprus1" |} = locationToCid {| Name := "cyprus2" |}
  <-> "cyprus1" = "cyprus2".
Proof.
  apply (locationToCid_inj {| Name := "cyprus1" |} {| Name := "cyprus2" |});
    vm_compute; reflexivity.
Defined.

(** ** Lifecycle *)

(** X17: [Start] fails exactly when the node is neither a bootnode nor in
    solo mode and has no bootpeers. The event loop and the stats loop are
    launched before that check, so they run even when [Start] fails; the
    stream handler is registered, for the protocol version, exactly when
    [Start] succeeds; and pubsub is started exactly when [Start] succeeds
    on a node that is not a bootnode. *)
Theorem Start_outcomes (bootNodeFlag soloFlag : bool) (bootpeers : list PeerID) :
  let r := Start bootNodeFlag soloFlag bootpeers in
  (snd r <> None <-> bootNodeFlag = false /\ soloFlag = false /\ bootpeers = []) /\
  (In GoEventLoop (fst r) /\ In GoStatsLoop (fst r)) /\
  (In (SetStreamHandler ProtocolVersion) (fst r) <-> snd r = None) /\
  (In PubsubStart (fst r) <-> snd r = None /\ bootNodeFlag = false).
Proof.
  destruct bootNodeFlag, soloFlag, bootpeers as [| peer bootpeers]; cbn;
    repeat split; try tauto; try congruence; try discriminate;
    intuition (try discriminate; try congruence).
Qed.

(** ** Whom the dispatcher contacts *)

Section DispatcherTrace.

Variable pb : Codec.
Variable NewStream : PeerID -> Stream + error.
Variable PeersForTopic : Location -> value -> list PeerID * option error.
Variable FindProvidersAsync : nat -> bytes -> nat -> list PeerID.
Variable location : Location.

Lemma In_fanout_providers (retries : nat) (peer : PeerID) :
  In retries (seq 0 maxDHTQueryRetries) ->
  In peer (FindProvidersAsync retries (locationToCid location) peersPerDHTQuery) ->
  In peer (concat (map (fun retries =>
                          FindProvidersAsync retries (locationToCid location) peersPerDHTQuery)
                       (seq 0 maxDHTQueryRetries))).
Proof.
  intros Hretries Hpeer. apply in_concat.
  exists (FindProvidersAsync retries (locationToCid location) peersPerDHTQuery).
  split; [| exact Hpeer].
  apply in_map_iff. now exists retries.
Qed.

Lemma traces_fanout (P : event -> Prop) (peers : list PeerID)
    (attempt : PeerID -> M (list value)) :
  (forall peer,
      In peer (peers ++ concat (map (fun retries =>
                                       FindProvidersAsync retries (locationToCid location)
                                                          peersPerDHTQuery)
                                    (seq 0 maxDHTQueryRetries))) ->
      traces P (attempt peer)) ->
  traces P (fanout FindProvidersAsync location peers attempt).
Proof.
  intros Hattempt. unfold fanout.
  apply traces_bind.
  - apply traces_for_each_In. intros peer Hin. apply Hattempt, in_or_app. now left.
  - intros fromTopic. apply traces_bind; [| intros; apply traces_ret].
    apply traces_for_each_In. intros retries Hretries.
    apply traces_for_each_In. intros peer Hin.
    apply Hattempt, in_or_app. right. now apply In_fanout_providers with retries.
Qed.

Lemma dispatcher_event_requestFromPeer (peers : list PeerID) (peer : PeerID)
    (data datatype : value) :
  In peer peers ->
  traces (dispatcher_event peers) (requestFromPeer pb NewStream peer location data datatype).
Proof.
  intros Hin. apply traces_requestFromPeer;
    try (intros; split; intros; discriminate).
  split; [intros x [= <-]; exact Hin | intros; discriminate].
Qed.

Lemma preserves_consensus_requestFromPeer (peer : PeerID) (data datatype : value) :
  preserves consensus (requestFromPeer pb NewStream peer location data datatype).
Proof.
  unfold requestFromPeer, validateOrBan, BanPeer, WriteMessageToStream,
    GenerateRequestID, AddRequestID, RemoveRequestID.
  repeat first [ apply preserves_checkResponse | preserves_step
               | (intros ?; reflexivity) ].
Qed.

End DispatcherTrace.

(** X18: a dispatcher bans nobody but peers it was given: every ban that
    [RequestByHash] or [RequestByNumber] puts on the trace is of a topic
    peer or of a provider of one of the three DHT rounds. Neither ever
    hands anything to the consensus backend, nor replaces it. *)
Theorem dispatchers_ban_only_contacted_peers
    (pb : Codec) (NewStream : PeerID -> Stream + error)
    (PeersForTopic : Location -> value -> list PeerID * option error)
    (FindProvidersAsync : nat -> bytes -> nat -> list PeerID)
    (location : Location) (datatype : value) :
  let peers := contacted PeersForTopic FindProvidersAsync location datatype in
  (forall hash,
      traces (dispatcher_event peers)
             (RequestByHash pb NewStream PeersForTopic FindProvidersAsync
                            location hash datatype) /\
      preserves consensus
             (RequestByHash pb NewStream PeersForTopic FindProvidersAsync
                            location hash datatype)) /\
  (forall number,
      traces (dispatcher_event peers)
             (RequestByNumber pb NewStream PeersForTopic FindProvidersAsync
                              location number datatype) /\
      preserves consensus
             (RequestByNumber pb NewStream PeersForTopic FindProvidersAsync
                              location number datatype)).
Proof.
  intros peers. subst peers. unfold contacted. split.
  - intros hash. rewrite RequestByHash_unfold. split.
    + apply traces_bind; [apply traces_get | intros hit].
      destruct (snd hit).
      * unfold assert_BlockPtr. repeat traces_step event_side.
      * destruct (PeersForTopic location datatype) as [topic [err |]]; cbn [fst].
        -- repeat traces_step event_side.
        -- apply traces_fanout. intros peer Hin. unfold attemptByHash.
           apply traces_bind; [now apply dispatcher_event_requestFromPeer | intros r].
           repeat traces_step event_side.
    + unfold fanout, attemptByHash, assert_BlockPtr, cacheAdd.
      repeat first [ apply preserves_consensus_requestFromPeer | preserves_step ].
  - intros number. rewrite RequestByNumber_unfold. split.
    + destruct (PeersForTopic location datatype) as [topic [err |]]; cbn [fst].
      * repeat traces_step event_side.
      * apply traces_fanout. intros peer Hin. unfold attemptByNumber.
        apply traces_bind; [now apply dispatcher_event_requestFromPeer | intros r].
        repeat traces_step event_side.
    + unfold fanout, attemptByNumber.
      repeat first [ apply preserves_consensus_requestFromPeer | preserves_step ].
Qed.

(** ** No attempt is cancelled *)




Section Tally.

Variable pb : Codec.
Variable NewStream : PeerID -> Stream + error.
Variable PeersForTopic : Location -> value -> list PeerID * option error.
Variable FindProvidersAsync : nat -> bytes -> nat -> list PeerID.
Variable location : Location.









End Tally.



(** ** Responses that cannot be sent *)

(** X20: a response that cannot be encoded or written does not end the
    read loop. When the block asked for is there but [EncodeQuaiResponse]
    or the write on the stream fails, the error is logged, nothing is
    recorded for the request, and the loop goes on with the next read
    exactly as if the frame had not been there. *)
Theorem read_loop_goes_on_after_failed_response
    (pb : Codec) (stream : Stream) (p : Node) (frame : bytes) (rest : list (bytes + error))
    (id : Z) (tag : option Block) (loc : Location) (hash : Hash) (block : Block) :
  DecodeQuaiRequest pb frame = inl (id, BlockPtr tag, loc, HashVal hash) ->
  fst (GetBlock hash loc p) = Done (Some block) ->
  (exists err, EncodeQuaiResponse pb id (BlockPtr (Some block)) = inr err) \/
  (exists response err,
      EncodeQuaiResponse pb id (BlockPtr (Some block)) = inl response /\
      on_write stream response = Some err) ->
  read_loop pb stream (inl frame :: rest) p = read_loop pb stream rest p.
Proof.
  intros Hdec Hget Hfail. cbn [read_loop]. rewrite Hdec.
  erewrite bind_run_done by reflexivity.
  erewrite bind_run_done by reflexivity.
  assert (Hrun : exists err, handleBlockRequest pb id loc hash stream p = (Done (Some err), p)).
  { unfold handleBlockRequest.
    erewrite bind_run_done by (rewrite GetBlock_run, Hget; reflexivity).
    cbn. unfold bind, WriteMessageToStream. cbn.
    destruct Hfail as [[err Henc] | (response & err & Henc & Hwrite)].
    - rewrite Henc. now exists err.
    - rewrite Henc, Hwrite. now exists err. }
  destruct Hrun as [err Hrun].
  erewrite bind_run_done by exact Hrun.
  reflexivity.
Qed.

Lemma read_loop_goes_on_after_failed_response_witness :
  let stream := {| Protocol := ProtocolVersion; RemotePeer := "mute";
                   on_write := fun data =>
                     match data with
                     | [5; _; _] => Some (Err "stream reset")
                     | _ => None
                     end;
                   reply := fun _ => inr EOF; incoming := [] |} in
  read_loop Fixture.pb stream [inl [5; 0; 7]; inl [6; 0; 7]] Fixture.serving
  = read_loop Fixture.pb stream [inl [6; 0; 7]] Fixture.serving.
Proof.
  intros stream.
  apply (read_loop_goes_on_after_failed_response
           Fixture.pb stream Fixture.serving [5; 0; 7] [inl [6; 0; 7]]
           5 (Some emptyBlock) Fixture.prime 7 {| block_hash := 7; block_body := [1; 2] |});
    try reflexivity.
  right. exists [5; 0; 7], (Err "stream reset"). split; reflexivity.
Defined.

(** The later request of that stream is served. *)
Example later_request_is_served_after_failed_write :
  let stream := {| Protocol := ProtocolVersion; RemotePeer := "mute";
                   on_write := fun data =>
                     match data with
                     | [5; _; _] => Some (Err "stream reset")
                     | _ => None
                     end;
                   reply := fun _ => inr EOF; incoming := [] |} in
  read_loop Fixture.pb stream [inl [5; 0; 7]; inl [6; 0; 7]] Fixture.serving
  = (Done tt, emit (EvStreamWrite "mute" [6; 0; 7]) Fixture.serving).
Proof. reflexivity. Qed.

(** The block-number handler on the small world: number 42 is answered
    with hash 7 under the request's ID. *)
Lemma handleBlockNumberRequest_replies_witness :
  handleBlockNumberRequest Fixture.pb 5 Fixture.prime 42 (Fixture.inbound "honest" [])
                           Fixture.serving
  = (Done None, emit (EvStreamWrite "honest" [5; 3; 7]) Fixture.serving).
Proof.
  apply (handleBlockNumberRequest_replies Fixture.pb 5 Fixture.prime 42
           (Fixture.inbound "honest" []) Fixture.serving Fixture.chain [5; 3; 7]);
    reflexivity.
Defined.
